(** * convex-typegen: the descriptor normalizer and the extraction driver

    A shallow embedding of [src/js/mocks/normalize.ts],
    [src/js/mocks/convex_values.ts], the two versions of
    [mocks/convex_server.ts] and the extraction loop of
    [src/js/extractor.ts], with the properties of the specification
    stated and proved over it. *)

From Stdlib Require Import List String Ascii Bool Arith NArith ZArith Lia.
From Stdlib Require Import PrimFloat DecimalString.
Import ListNotations.
Open Scope string_scope.
Open Scope list_scope.

(* ===================================================================== *)
(** ** JavaScript values *)
(* ===================================================================== *)

(** The values the extractor handles.  An object is the list of its own
    enumerable string-keyed properties, in the order [Object.entries]
    lists them; an array is the dense list of its elements and carries no
    further named property.  Functions and symbols are opaque. *)
#[warnings="-register-all"]
Inductive JsVal : Type :=
| JUndefined
| JNull
| JBool (b : bool)
| JNum (x : float)
| JBigInt (z : Z)
| JStr (s : string)
| JSymbol (id : nat)
| JFun (id : nat)
| JArr (xs : list JsVal)
| JObj (ps : list (string * JsVal)).

Definition Props := list (string * JsVal).

(** A call either returns or throws; the only exception the code under
    study can raise by itself is a [TypeError]. *)
Inductive JsError : Type := TypeError.

Inductive Outcome (A : Type) : Type :=
| Returns (a : A)
| Throws (e : JsError).
Arguments Returns {A} a.
Arguments Throws {A} e.

Definition bind {A B : Type} (m : Outcome A) (k : A -> Outcome B) : Outcome B :=
  match m with
  | Returns a => k a
  | Throws e => Throws e
  end.

Notation "x <- m ;; k" := (bind m (fun x => k))
  (at level 61, m at next level, right associativity).

(** [array.map(f)]: the callback runs on the elements from left to right
    and the first exception leaves the loop. *)
Fixpoint mapM {A B : Type} (f : A -> Outcome B) (xs : list A) : Outcome (list B) :=
  match xs with
  | [] => Returns []
  | x :: rest => y <- f x ;; ys <- mapM f rest ;; Returns (y :: ys)
  end.

(** [typeof v]. *)
Definition typeof (v : JsVal) : string :=
  match v with
  | JUndefined => "undefined"
  | JNull => "object"
  | JBool _ => "boolean"
  | JNum _ => "number"
  | JBigInt _ => "bigint"
  | JStr _ => "string"
  | JSymbol _ => "symbol"
  | JFun _ => "function"
  | JArr _ => "object"
  | JObj _ => "object"
  end.

(** [v !== null] and [v !== undefined]. *)
Definition not_null (v : JsVal) : bool :=
  match v with JNull => false | _ => true end.

Definition not_undefined (v : JsVal) : bool :=
  match v with JUndefined => false | _ => true end.

(** [Array.isArray(v)]. *)
Definition isArray (v : JsVal) : bool :=
  match v with JArr _ => true | _ => false end.

(** [v === true] and [v === "text"]: strict equality with a boolean or a
    string constant holds for that very primitive only. *)
Definition is_true (v : JsVal) : bool :=
  match v with JBool true => true | _ => false end.

Definition is_str (v : JsVal) (s : string) : bool :=
  match v with JStr t => String.eqb t s | _ => false end.

(** Truthiness, as [!v], [if (v)] and [v && ...] test it. *)
Definition truthy (v : JsVal) : bool :=
  match v with
  | JUndefined | JNull => false
  | JBool b => b
  | JNum x => negb (PrimFloat.is_zero x || PrimFloat.is_nan x)
  | JBigInt z => negb (Z.eqb z 0)
  | JStr s => negb (String.eqb s "")
  | JSymbol _ | JFun _ | JArr _ | JObj _ => true
  end.

(** Own-property lookup in a property list. *)
Fixpoint lookup (k : string) (ps : Props) : option JsVal :=
  match ps with
  | [] => None
  | (k', x) :: rest => if String.eqb k' k then Some x else lookup k rest
  end.

(** The property read [v.k] for the names the code reads ([type], [kind],
    [isConvexValidator], [isOptional], [tableName], [value], [fields],
    [element], [members], [key], [properties], [__type], [__config],
    [args], [returns]).  None of them is defined on [Object.prototype],
    [Array.prototype], [Function.prototype] or on the wrapper of a
    primitive, so the read is the own property of an object and
    [undefined] elsewhere.  Every read in the code is behind a test that
    excludes [null] and [undefined], where a read would throw. *)
Definition get (v : JsVal) (k : string) : JsVal :=
  match v with
  | JObj ps => match lookup k ps with Some x => x | None => JUndefined end
  | _ => JUndefined
  end.

(** [k in v] for an object. *)
Definition has_property (k : string) (v : JsVal) : bool :=
  match v with
  | JObj ps => match lookup k ps with Some _ => true | None => false end
  | _ => false
  end.

(** [a ?? b]. *)
Definition nullish_or (a b : JsVal) : JsVal :=
  match a with
  | JUndefined | JNull => b
  | _ => a
  end.

(** The decimal name of an array position. *)
Definition index_name (i : nat) : string :=
  NilZero.string_of_uint (Nat.to_uint i).

Fixpoint indexed {A : Type} (i : nat) (xs : list A) : list (string * A) :=
  match xs with
  | [] => []
  | x :: rest => (index_name i, x) :: indexed (S i) rest
  end.

Fixpoint chars (s : string) : list JsVal :=
  match s with
  | EmptyString => []
  | String c rest => JStr (String c EmptyString) :: chars rest
  end.

(** [Object.entries(v)]: the own enumerable string-keyed properties.  It
    throws on [undefined] and [null]; a string lists its characters, an
    array its elements, every other primitive and a function nothing. *)
Definition entries (v : JsVal) : Outcome Props :=
  match v with
  | JUndefined | JNull => Throws TypeError
  | JObj ps => Returns ps
  | JArr xs => Returns (indexed 0 xs)
  | JStr s => Returns (indexed 0 (chars s))
  | JBool _ | JNum _ | JBigInt _ | JSymbol _ | JFun _ => Returns []
  end.

(* --------------------------------------------------------------------- *)
(** *** Property order and assignment *)

(** An array index is the canonical decimal name of an integer below
    [2^32 - 1]; such keys are enumerated first, in ascending order, and
    the other keys follow in the order of their creation. *)
Definition digit_of (c : ascii) : option N :=
  let n := N_of_ascii c in
  if (N.leb 48 n && N.leb n 57)%bool then Some (n - 48)%N else None.

Fixpoint digits_value (acc : N) (s : string) : option N :=
  match s with
  | EmptyString => Some acc
  | String c rest =>
      match digit_of c with
      | Some d => digits_value (10 * acc + d)%N rest
      | None => None
      end
  end.

Definition array_index (k : string) : option N :=
  match k with
  | EmptyString => None
  | String c rest =>
      if (Ascii.eqb c "0" && negb (String.eqb rest ""))%bool then None
      else match digits_value 0%N k with
           | Some n => if N.leb n 4294967294%N then Some n else None
           | None => None
           end
  end.

Definition has_own (k : string) (ps : Props) : bool :=
  match lookup k ps with Some _ => true | None => false end.

Fixpoint replace_own (k : string) (x : JsVal) (ps : Props) : Props :=
  match ps with
  | [] => []
  | (k', y) :: rest =>
      if String.eqb k' k then (k', x) :: rest
      else (k', y) :: replace_own k x rest
  end.

(** A new index key goes before the first key that is a larger index or
    no index at all. *)
Fixpoint insert_index (n : N) (k : string) (x : JsVal) (ps : Props) : Props :=
  match ps with
  | [] => [(k, x)]
  | (k', y) :: rest =>
      match array_index k' with
      | Some m => if N.ltb n m then (k, x) :: ps
                  else (k', y) :: insert_index n k x rest
      | None => (k, x) :: ps
      end
  end.

Definition define_own (k : string) (x : JsVal) (ps : Props) : Props :=
  match array_index k with
  | Some n => insert_index n k x ps
  | None => ps ++ [(k, x)]
  end.

(** The assignment [target[k] = x] on an object created by a literal,
    [ps] being the properties of [target].  An own property keeps its
    place and takes the new value.  Otherwise the key is looked up on
    [Object.prototype], whose only accessor is [__proto__]: assigning
    to that name sets the prototype of [target] and defines no property
    (nothing in the code reads a property through the prototype of such
    a target, so the prototype itself is not modelled).  Every other key
    becomes a new own property. *)
Definition obj_set (k : string) (x : JsVal) (ps : Props) : Props :=
  if has_own k ps then replace_own k x ps
  else if String.eqb k "__proto__" then ps
  else define_own k x ps.

(** The keys of a property list, and what every object guarantees about
    them: no key twice, array indices first and ascending. *)
Definition keys (ps : Props) : list string := map fst ps.

Definition before (k k' : string) : bool :=
  match array_index k, array_index k' with
  | Some n, Some m => N.ltb n m
  | Some _, None => true
  | None, Some _ => false
  | None, None => negb (String.eqb k k')
  end.

Fixpoint own_order (ks : list string) : bool :=
  match ks with
  | [] => true
  | k :: rest => forallb (before k) rest && own_order rest
  end.

Definition no_proto_key (ks : list string) : bool :=
  forallb (fun k => negb (String.eqb k "__proto__")) ks.

(* ===================================================================== *)
(** ** mocks/normalize.ts *)
(* ===================================================================== *)

(** Object literals of the normalizer, each with its keys in the order
    the source writes them. *)
Definition desc_of_kind (kind : JsVal) : JsVal := JObj [("type", kind)].
Definition desc_any : JsVal := JObj [("type", JStr "any")].
Definition desc_number : JsVal := JObj [("type", JStr "number")].
Definition desc_id (tableName : JsVal) : JsVal :=
  JObj [("type", JStr "id"); ("tableName", tableName)].
Definition desc_literal (value : JsVal) : JsVal :=
  JObj [("type", JStr "literal"); ("value", value)].
Definition desc_object (properties : Props) : JsVal :=
  JObj [("type", JStr "object"); ("properties", JObj properties)].
Definition desc_array (elements : JsVal) : JsVal :=
  JObj [("type", JStr "array"); ("elements", elements)].
Definition desc_union (variants : list JsVal) : JsVal :=
  JObj [("type", JStr "union"); ("variants", JArr variants)].
Definition desc_record (keyType valueType : JsVal) : JsVal :=
  JObj [("type", JStr "record"); ("keyType", keyType); ("valueType", valueType)].
Definition desc_optional (inner : JsVal) : JsVal :=
  JObj [("type", JStr "optional"); ("inner", inner)].

(** [isConvexValidator(val)]. *)
Definition isConvexValidator (val : JsVal) : bool :=
  not_null val
  && String.eqb (typeof val) "object"
  && is_true (get val "isConvexValidator").

(** [isCodegenDescriptor(val)]. *)
Definition isCodegenDescriptor (val : JsVal) : bool :=
  not_null val
  && String.eqb (typeof val) "object"
  && String.eqb (typeof (get val "type")) "string"
  && negb (truthy (get val "isConvexValidator")).

Section Body.

(** The two functions of the module call each other; [self] stands for
    the recursive reference to [normalize]. *)
Variable self : JsVal -> Outcome JsVal.

(** [for (const [key, v] of es) properties[key] = normalize(v)]. *)
Fixpoint assign_each (es : Props) (properties : Props) : Outcome Props :=
  match es with
  | [] => Returns properties
  | (key, v) :: rest =>
      d <- self v ;;
      assign_each rest (obj_set key d properties)
  end.

(** The [switch (kind)] of [normalizeValidator], which builds [inner].
    The cases compare [kind] with [===], so only a string selects one.
    [members.map] is the array method when [members] is an array; on
    [undefined], [null] and every value without a callable [map] the call
    raises a [TypeError], and an object that brings a callable [map] of
    its own is outside the model (the call is taken to raise as well). *)
Definition normalizeValidator_inner (v : JsVal) : Outcome JsVal :=
  let kind := get v "kind" in
  if is_str kind "string" || is_str kind "boolean" || is_str kind "int64"
     || is_str kind "null" || is_str kind "any" || is_str kind "bytes"
  then Returns (desc_of_kind kind)
  else if is_str kind "float64" then Returns desc_number
  else if is_str kind "id" then Returns (desc_id (get v "tableName"))
  else if is_str kind "literal" then Returns (desc_literal (get v "value"))
  else if is_str kind "object" then
    let fields := get v "fields" in
    properties <-
      (if truthy fields
       then es <- entries fields ;; assign_each es []
       else Returns []) ;;
    Returns (desc_object properties)
  else if is_str kind "array" then
    elements <- self (get v "element") ;;
    Returns (desc_array elements)
  else if is_str kind "union" then
    match get v "members" with
    | JArr members =>
        variants <- mapM self members ;;
        Returns (desc_union variants)
    | _ => Throws TypeError
    end
  else if is_str kind "record" then
    keyType <- self (get v "key") ;;
    valueType <- self (get v "value") ;;
    Returns (desc_record keyType valueType)
  else Returns desc_any.

Definition normalizeValidator (v : JsVal) : Outcome JsVal :=
  let isOpt := is_str (get v "isOptional") "optional" in
  inner <- normalizeValidator_inner v ;;
  if isOpt then Returns (desc_optional inner) else Returns inner.

(** The body of [normalize]. *)
Definition normalize_body (val : JsVal) : Outcome JsVal :=
  if isCodegenDescriptor val then Returns val
  else if isConvexValidator val then normalizeValidator val
  else if not_null val && String.eqb (typeof val) "object" && negb (isArray val)
  then
    es <- entries val ;;
    properties <- assign_each es [] ;;
    Returns (desc_object properties)
  else Returns desc_any.

End Body.

(** The nesting depth a call can descend through: every recursive call
    of [normalize] is on a value strictly smaller than its argument. *)
Fixpoint size (v : JsVal) : nat :=
  match v with
  | JArr xs => S (fold_right (fun x n => size x + n) 0 xs)
  | JObj ps => S (fold_right (fun p n => size (snd p) + n) 0 ps)
  | _ => 0
  end.

(** [normalize], the recursion unrolled as deep as the value is nested;
    the function below the last level is never reached (see
    [normalize_eq]). *)
Definition normalize_upto (n : nat) : JsVal -> Outcome JsVal :=
  Nat.iter n normalize_body (fun _ => Throws TypeError).

Definition normalize (val : JsVal) : Outcome JsVal :=
  normalize_upto (S (size val)) val.

(* ===================================================================== *)
(** ** mocks/convex_values.ts *)
(* ===================================================================== *)

(** The constructors of the mock [v]: each returns the descriptor the
    code generator reads. *)
Module V.
Definition string : JsVal := JObj [("type", JStr "string")].
Definition number : JsVal := JObj [("type", JStr "number")].
Definition boolean : JsVal := JObj [("type", JStr "boolean")].
Definition int64 : JsVal := JObj [("type", JStr "int64")].
Definition float64 : JsVal := JObj [("type", JStr "float64")].
Definition null : JsVal := JObj [("type", JStr "null")].
Definition any : JsVal := JObj [("type", JStr "any")].
Definition bytes : JsVal := JObj [("type", JStr "bytes")].
Definition id (tableName : String.string) : JsVal :=
  JObj [("type", JStr "id"); ("tableName", JStr tableName)].
Definition optional (inner : JsVal) : JsVal :=
  JObj [("type", JStr "optional"); ("inner", inner)].
Definition array (elements : JsVal) : JsVal :=
  JObj [("type", JStr "array"); ("elements", elements)].
Definition object (fields : Props) : JsVal :=
  JObj [("type", JStr "object"); ("properties", JObj fields)].
Definition record (keyType valueType : JsVal) : JsVal :=
  JObj [("type", JStr "record"); ("keyType", keyType); ("valueType", valueType)].
Definition union (variants : list JsVal) : JsVal :=
  JObj [("type", JStr "union"); ("variants", JArr variants)].
Definition literal (value : JsVal) : JsVal :=
  JObj [("type", JStr "literal"); ("value", value)].
End V.

(* ===================================================================== *)
(** ** mocks/convex_server.ts *)
(* ===================================================================== *)

(** [makeFunctionRegistrar(type)(config)]: the tagged value a registrar
    returns; the handler inside [config] is kept and never called. *)
Definition makeFunctionRegistrar (type : string) (config : JsVal) : JsVal :=
  JObj [("__type", JStr type); ("__config", config)].

Definition query := makeFunctionRegistrar "query".
Definition mutation := makeFunctionRegistrar "mutation".
Definition action := makeFunctionRegistrar "action".
Definition internalQuery := makeFunctionRegistrar "internalQuery".
Definition internalMutation := makeFunctionRegistrar "internalMutation".
Definition internalAction := makeFunctionRegistrar "internalAction".
Definition httpAction := makeFunctionRegistrar "httpAction".

(** The stand-in for [paginationOptsValidator], as the module that works
    on mock validators writes it ... *)
Module MockServer.
Definition paginationOptsValidator : JsVal :=
  JObj [("type", JStr "object");
        ("properties",
         JObj [("numItems", JObj [("type", JStr "number")]);
               ("cursor",
                JObj [("type", JStr "union");
                      ("variants",
                       JArr [JObj [("type", JStr "string")];
                             JObj [("type", JStr "null")]])])])].
End MockServer.

(** ... and as the module that normalizes real validators writes it. *)
Module NormalizingServer.
Definition paginationOptsValidator : JsVal :=
  JObj [("type", JStr "object");
        ("properties",
         JObj [("numItems", JObj [("type", JStr "float64")]);
               ("cursor",
                JObj [("type", JStr "union");
                      ("variants",
                       JArr [JObj [("type", JStr "string")];
                             JObj [("type", JStr "null")]])])])].
End NormalizingServer.

(* ===================================================================== *)
(** ** extractor.ts *)
(* ===================================================================== *)

Module Param.
Record t : Type := { name : string; data_type : JsVal }.
End Param.

Module FunctionRecord.
Record t : Type := {
  name : string;
  type : JsVal;
  params : list Param.t;
  return_type : JsVal;
  file_name : string
}.
End FunctionRecord.

(** [s.split("/")]. *)
Fixpoint split_slash (s : string) : list string :=
  match s with
  | EmptyString => [EmptyString]
  | String c rest =>
      if Ascii.eqb c "/" then EmptyString :: split_slash rest
      else match split_slash rest with
           | part :: parts => String c part :: parts
           | [] => [String c EmptyString]
           end
  end.

(** [s.replace(/\.ts$/, "")]: the pattern matches at the end of the text
    only, so at most the last three characters go. *)
Fixpoint strip_ts (s : string) : string :=
  match s with
  | EmptyString => EmptyString
  | String c rest => if String.eqb s ".ts" then EmptyString else String c (strip_ts rest)
  end.

Definition fileName_of (fp : string) : string :=
  let parts := split_slash fp in
  let rawName := last parts fp in
  strip_ts rawName.

Definition param_of (e : string * JsVal) : Param.t :=
  {| Param.name := fst e; Param.data_type := snd e |}.

(** The body of the loop over the exports of one function module. *)
Definition extract_export (fileName exportName : string) (value : JsVal)
    (functions : list FunctionRecord.t) : Outcome (list FunctionRecord.t) :=
  if not_null value && String.eqb (typeof value) "object" && has_property "__type" value
  then
    let def := value in
    let config := nullish_or (get def "__config") (JObj []) in
    let argsRaw := get config "args" in
    params <-
      (if not_undefined argsRaw && not_null argsRaw then
         normalized <- normalize argsRaw ;;
         if is_str (get normalized "type") "object"
            && truthy (get normalized "properties")
            && String.eqb (typeof (get normalized "properties")) "object"
         then es <- entries (get normalized "properties") ;;
              Returns (map param_of es)
         else Returns []
       else Returns []) ;;
    let returnsRaw := get config "returns" in
    returnType <-
      (if not_undefined returnsRaw && not_null returnsRaw
       then normalize returnsRaw
       else Returns JNull) ;;
    Returns (functions ++
             [{| FunctionRecord.name := exportName;
                 FunctionRecord.type := get def "__type";
                 FunctionRecord.params := params;
                 FunctionRecord.return_type := returnType;
                 FunctionRecord.file_name := fileName |}])
  else Returns functions.

Fixpoint extract_exports (fileName : string) (es : Props)
    (functions : list FunctionRecord.t) : Outcome (list FunctionRecord.t) :=
  match es with
  | [] => Returns functions
  | (exportName, value) :: rest =>
      functions' <- extract_export fileName exportName value functions ;;
      extract_exports fileName rest functions'
  end.

Section Driver.

(** [await import(fp)]: the module namespace a path loads to, or the
    exception its loading raises. *)
Variable import : string -> Outcome JsVal.

(** [for (const fp of functionPaths)]. *)
Fixpoint extract_modules (functionPaths : list string)
    (functions : list FunctionRecord.t) : Outcome (list FunctionRecord.t) :=
  match functionPaths with
  | [] => Returns functions
  | fp :: rest =>
      let fileName := fileName_of fp in
      mod_ <- import fp ;;
      es <- entries mod_ ;;
      functions' <- extract_exports fileName es functions ;;
      extract_modules rest functions'
  end.

End Driver.

(* ===================================================================== *)
(** ** Vocabulary of the properties *)
(* ===================================================================== *)

(** A real-library validator, as the header of [normalize.ts] pictures
    it: [{ kind, ..., isOptional, isConvexValidator: true }]. *)
Definition real_validator (kind : string) (payload : Props) (isOptional : string) : JsVal :=
  JObj (("kind", JStr kind) :: payload ++
        [("isOptional", JStr isOptional); ("isConvexValidator", JBool true)]).

(** The kinds [normalizeValidator] has a case for. *)
Definition known_kinds : list string :=
  ["string"; "boolean"; "int64"; "null"; "any"; "bytes"; "float64"; "id";
   "literal"; "object"; "array"; "union"; "record"].

(** The wrapper [normalizeValidator] adds for a flagged validator. *)
Definition wrap_if_optional (v d : JsVal) : JsVal :=
  if is_str (get v "isOptional") "optional" then V.optional d else d.

(** [qs] holds the fields of [es], name by name and in the same order,
    each value being what [self] returns on the value of [es]. *)
Definition fields_from (self : JsVal -> Outcome JsVal) (es qs : Props) : Prop :=
  keys qs = keys es /\
  Forall2 (fun x d => self x = Returns d) (map snd es) (map snd qs).

(** A member of a tagged union: a real object validator with a field
    [type] whose validator is a real literal validator.  Either may be
    flagged optional. *)
Definition tagged_validator (m : JsVal) : Prop :=
  isConvexValidator m = true /\
  is_str (get m "kind") "object" = true /\
  exists fps lit,
    get m "fields" = JObj fps /\
    own_order (keys fps) = true /\
    lookup "type" fps = Some lit /\
    isConvexValidator lit = true /\
    is_str (get lit "kind") "literal" = true.

(** [d] is the object descriptor for the member [m] (inside the wrapper
    when [m] is flagged) and still has the field [type]: the literal
    descriptor that carries the value of the member's literal validator
    (inside the wrapper when that validator is flagged). *)
Definition tag_kept (m d : JsVal) : Prop :=
  exists fps lit qs,
    get m "fields" = JObj fps /\
    lookup "type" fps = Some lit /\
    d = wrap_if_optional m (V.object qs) /\
    lookup "type" qs = Some (wrap_if_optional lit (V.literal (get lit "value"))).

(** A name without a slash, as the base name of a file is. *)
Fixpoint no_slash (s : string) : bool :=
  match s with
  | EmptyString => true
  | String c rest => negb (Ascii.eqb c "/") && no_slash rest
  end.

(** The path of the file [base], in the directory [dir] when there is one. *)
Definition in_directory (dir : option string) (base : string) : string :=
  match dir with
  | Some d => (d ++ String "/" base)%string
  | None => base
  end.

(** A configuration that declares no parameters: no [args], or the
    empty mapping; and one that declares no return validator. *)
Definition declares_no_args (config : JsVal) : Prop :=
  get config "args" = JUndefined \/ get config "args" = JNull \/
  get config "args" = JObj [].

Definition declares_no_returns (config : JsVal) : Prop :=
  get config "returns" = JUndefined \/ get config "returns" = JNull.

(* ===================================================================== *)
(** ** mocks/convex_server.ts: tables and the schema registrar *)
(* ===================================================================== *)

Module Column.
Record t : Type := { name : string; data_type : JsVal }.
End Column.

Module TableDef.
Record t : Type := { name : string; columns : list Column.t }.
End TableDef.

(** The builder [defineTable] returns.  Its two methods take any
    arguments and return the builder itself. *)
Module TableBuilder.
Record t : Type := { _validator : JsVal }.
End TableBuilder.

Definition defineTable (validator : JsVal) : TableBuilder.t :=
  {| TableBuilder._validator := validator |}.

Definition index (builder : TableBuilder.t) (args : list JsVal) : TableBuilder.t :=
  builder.

Definition searchIndex (builder : TableBuilder.t) (args : list JsVal) : TableBuilder.t :=
  builder.

Definition column_of (e : string * JsVal) : Column.t :=
  {| Column.name := fst e; Column.data_type := snd e |}.

(** [defineSchema] pushes onto [__schema.tables] as it goes, so a call
    is a pair: the tables of [__schema] when the call ends, and whether
    it ended by returning ([__schema] itself, not modelled as a value)
    or by an exception.  [tables] lists the entries of the argument. *)
Module MockSchema.

(** The version that receives the descriptors of the mock [v]. *)
Fixpoint defineSchema (tables : list (string * TableBuilder.t))
    (schema : list TableDef.t) : list TableDef.t * Outcome unit :=
  match tables with
  | [] => (schema, Returns tt)
  | (name, table) :: rest =>
      let validator := nullish_or (TableBuilder._validator table) (JObj []) in
      let properties :=
        if is_str (get validator "type") "object" && truthy (get validator "properties")
        then get validator "properties"
        else validator in
      match entries properties with
      | Returns es =>
          defineSchema rest
            (schema ++ [{| TableDef.name := name;
                           TableDef.columns := map column_of es |}])
      | Throws e => (schema, Throws e)
      end
  end.

End MockSchema.

Module NormalizingSchema.

(** The version that receives real validators and normalizes them. *)
Fixpoint defineSchema (tables : list (string * TableBuilder.t))
    (schema : list TableDef.t) : list TableDef.t * Outcome unit :=
  match tables with
  | [] => (schema, Returns tt)
  | (name, table) :: rest =>
      match normalize (TableBuilder._validator table) with
      | Returns normalized =>
          let properties :=
            if is_str (get normalized "type") "object"
               && truthy (get normalized "properties")
            then get normalized "properties"
            else JObj [] in
          match entries properties with
          | Returns es =>
              defineSchema rest
                (schema ++ [{| TableDef.name := name;
                               TableDef.columns := map column_of es |}])
          | Throws e => (schema, Throws e)
          end
      | Throws e => (schema, Throws e)
      end
  end.

End NormalizingSchema.

(* ===================================================================== *)
(** ** extractor.ts: the loop of the version for mock validators *)
(* ===================================================================== *)

Module MockExtractor.

Definition extract_export (fileName exportName : string) (value : JsVal)
    (functions : list FunctionRecord.t) : Outcome (list FunctionRecord.t) :=
  if not_null value && String.eqb (typeof value) "object" && has_property "__type" value
  then
    let def := value in
    let config := nullish_or (get def "__config") (JObj []) in
    let args := nullish_or (get config "args") (JObj []) in
    let argsProperties :=
      if is_str (get args "type") "object" && truthy (get args "properties")
      then get args "properties"
      else args in
    es <- entries argsProperties ;;
    let params := map param_of es in
    Returns (functions ++
             [{| FunctionRecord.name := exportName;
                 FunctionRecord.type := get def "__type";
                 FunctionRecord.params := params;
                 FunctionRecord.return_type := nullish_or (get config "returns") JNull;
                 FunctionRecord.file_name := fileName |}])
  else Returns functions.

End MockExtractor.

(* ===================================================================== *)
(** ** Validators as a schema source writes them *)
(* ===================================================================== *)

(** An expression over the constructors of [v]. *)
#[warnings="-register-all"]
Inductive Validator : Type :=
| TString
| TNumber
| TBoolean
| TInt64
| TFloat64
| TNull
| TAny
| TBytes
| TId (tableName : string)
| TLiteral (value : JsVal)
| TObject (fields : list (string * Validator))
| TArray (element : Validator)
| TUnion (members : list Validator)
| TRecord (keyType valueType : Validator)
| TOptional (inner : Validator).

(** What the expression evaluates to with the mock [v] of
    [mocks/convex_values.ts]. *)
Fixpoint mock (t : Validator) : JsVal :=
  match t with
  | TString => V.string
  | TNumber => V.number
  | TBoolean => V.boolean
  | TInt64 => V.int64
  | TFloat64 => V.float64
  | TNull => V.null
  | TAny => V.any
  | TBytes => V.bytes
  | TId tableName => V.id tableName
  | TLiteral value => V.literal value
  | TObject fields => V.object (map (fun f => (fst f, mock (snd f))) fields)
  | TArray element => V.array (mock element)
  | TUnion members => V.union (map mock members)
  | TRecord keyType valueType => V.record (mock keyType) (mock valueType)
  | TOptional inner => V.optional (mock inner)
  end.


(** [value.asOptional()] of the real library: the same validator with
    its flag set. *)
Definition as_optional (v : JsVal) : JsVal :=
  match v with
  | JObj ps => JObj (replace_own "isOptional" (JStr "optional") ps)
  | _ => v
  end.

(** What the expression evaluates to with the real library, in the shape
    [normalizeValidator] reads: [number] and [float64] are one kind, and
    [optional] sets the flag of its argument. *)
Fixpoint real (t : Validator) : JsVal :=
  match t with
  | TString => real_validator "string" [] "required"
  | TNumber => real_validator "float64" [] "required"
  | TBoolean => real_validator "boolean" [] "required"
  | TInt64 => real_validator "int64" [] "required"
  | TFloat64 => real_validator "float64" [] "required"
  | TNull => real_validator "null" [] "required"
  | TAny => real_validator "any" [] "required"
  | TBytes => real_validator "bytes" [] "required"
  | TId tableName => real_validator "id" [("tableName", JStr tableName)] "required"
  | TLiteral value => real_validator "literal" [("value", value)] "required"
  | TObject fields =>
      real_validator "object"
        [("fields", JObj (map (fun f => (fst f, real (snd f))) fields))] "required"
  | TArray element => real_validator "array" [("element", real element)] "required"
  | TUnion members =>
      real_validator "union" [("members", JArr (map real members))] "required"
  | TRecord keyType valueType =>
      real_validator "record" [("key", real keyType); ("value", real valueType)]
        "required"
  | TOptional inner => as_optional (real inner)
  end.

Definition is_optional (t : Validator) : bool :=
  match t with TOptional _ => true | _ => false end.

(** The expressions on which the two libraries are expected to agree:
    the fields of an object are named as [Object.entries] lists them
    and none is [__proto__], [optional] is not applied to an [optional],
    and the numeric constructor is [number]. *)
Fixpoint plain (t : Validator) : bool :=
  match t with
  | TFloat64 => false
  | TObject fields =>
      own_order (map fst fields) && no_proto_key (map fst fields)
      && forallb (fun f => plain (snd f)) fields
  | TArray element => plain element
  | TUnion members => forallb plain members
  | TRecord keyType valueType => plain keyType && plain valueType
  | TOptional inner => negb (is_optional inner) && plain inner
  | _ => true
  end.

(** The value of [config.returns] in the record: [null] when absent,
    what it normalizes to otherwise. *)
Definition returns_become (config r : JsVal) : Prop :=
  (declares_no_returns config /\ r = JNull) \/
  (not_undefined (get config "returns") && not_null (get config "returns") = true /\
   normalize (get config "returns") = Returns r).

(** The fields of a property list that assignment turns into properties. *)
Definition without_proto (ps : Props) : Props :=
  filter (fun p => negb (String.eqb (fst p) "__proto__")) ps.

(** The test of the extraction loop for an export a registrar tagged. *)
Definition is_registered (value : JsVal) : bool :=
  not_null value && String.eqb (typeof value) "object" && has_property "__type" value.

(** What stands where a union validator should have its array of members:
    anything but an array, and not an object with a callable [map] of its
    own. *)
Definition no_members (members : JsVal) : bool :=
  match members with
  | JArr _ => false
  | JObj ps => match lookup "map" ps with Some (JFun _) => false | _ => true end
  | _ => true
  end.

(** A registered export whose [args] or [returns] makes [normalize]
    throw. *)
Definition export_throws (value : JsVal) : Prop :=
  is_registered value = true /\
  (normalize (get (nullish_or (get value "__config") (JObj [])) "args")
   = Throws TypeError \/
   normalize (get (nullish_or (get value "__config") (JObj [])) "returns")
   = Throws TypeError).

(** The [args] the mock [v] produces for a registrar: none, the object
    descriptor of [v.object], or a raw mapping from names to descriptors
    (the names as [Object.entries] lists them, none [__proto__]). *)
Definition mock_args (args : JsVal) : Prop :=
  args = JUndefined \/ args = JNull \/
  (exists fields, args = V.object fields) \/
  (exists fields,
      args = JObj fields /\
      Forall (fun p => isCodegenDescriptor (snd p) = true) fields /\
      own_order (keys fields) = true /\
      no_proto_key (keys fields) = true).

Definition mock_returns (returns : JsVal) : Prop :=
  returns = JUndefined \/ returns = JNull \/ isCodegenDescriptor returns = true.

(* ===================================================================== *)
(** ** The recursion of [normalize] *)
(* ===================================================================== *)

Lemma bind_ext {A B : Type} (m : Outcome A) (k k' : A -> Outcome B) :
  (forall a, m = Returns a -> k a = k' a) -> bind m k = bind m k'.
Proof. destruct m; simpl; auto. Qed.

Lemma size_member (k : string) (x : JsVal) (ps : Props) :
  In (k, x) ps -> size x < size (JObj ps).
Proof.
  simpl. induction ps as [|[k' y] ps IH]; simpl; [tauto|].
  intros [E | HIn]; [inversion E; subst; lia | specialize (IH HIn); lia].
Qed.

Lemma size_element (x : JsVal) (xs : list JsVal) :
  In x xs -> size x < size (JArr xs).
Proof.
  simpl. induction xs as [|y xs IH]; simpl; [tauto|].
  intros [E | HIn]; [subst; lia | specialize (IH HIn); lia].
Qed.

Lemma lookup_In (k : string) (ps : Props) (x : JsVal) :
  lookup k ps = Some x -> In (k, x) ps.
Proof.
  induction ps as [|[k' y] ps IH]; simpl; [discriminate|].
  destruct (String.eqb_spec k' k) as [->|_].
  - intros [= ->]. now left.
  - intros H. right. auto.
Qed.

Lemma size_get (ps : Props) (k : string) :
  size (get (JObj ps) k) < size (JObj ps).
Proof.
  unfold get. destruct (lookup k ps) eqn:E.
  - eapply size_member, lookup_In, E.
  - simpl. lia.
Qed.

Lemma indexed_In {A : Type} (xs : list A) (i : nat) (p : string * A) :
  In p (indexed i xs) -> In (snd p) xs.
Proof.
  revert i. induction xs as [|x xs IH]; simpl; [tauto|].
  intros i [<- | HIn]; [now left | right; eauto].
Qed.

Lemma size_chars (s : string) (x : JsVal) : In x (chars s) -> size x = 0.
Proof.
  induction s as [|c s IH]; simpl; [tauto|].
  intros [<- | HIn]; auto.
Qed.

(** What [Object.entries] lists is never deeper than the value itself,
    and strictly shallower when the value is an object or an array. *)
Lemma size_entries (v : JsVal) (es : Props) (p : string * JsVal) :
  entries v = Returns es -> In p es ->
  size (snd p) = 0 \/ size (snd p) < size v.
Proof.
  destruct v; simpl; intros [= <-] HIn; try contradiction.
  - left. eapply size_chars, indexed_In, HIn.
  - right. apply indexed_In in HIn. now apply size_element in HIn.
  - right. destruct p as [k x]. now apply size_member in HIn.
Qed.

Lemma isConvexValidator_object (v : JsVal) :
  isConvexValidator v = true -> exists ps, v = JObj ps.
Proof. destruct v; try discriminate. eauto. Qed.

Section Locality.

Variables f g : JsVal -> Outcome JsVal.

Lemma assign_each_ext (es acc : Props) :
  (forall p, In p es -> f (snd p) = g (snd p)) ->
  assign_each f es acc = assign_each g es acc.
Proof.
  revert acc. induction es as [|[k x] es IH]; simpl; intros acc H; [reflexivity|].
  pose proof (H (k, x) (or_introl eq_refl)) as Hx. simpl in Hx. rewrite Hx.
  apply bind_ext. intros d _. apply IH. intros p HIn. apply H. now right.
Qed.

Lemma mapM_ext (xs : list JsVal) :
  (forall x, In x xs -> f x = g x) -> mapM f xs = mapM g xs.
Proof.
  induction xs as [|x xs IH]; simpl; intros H; [reflexivity|].
  rewrite (H x) by now left.
  rewrite IH; [reflexivity | intros y HIn; apply H; now right].
Qed.

(** Every recursive call strictly descends into a sub-structure: the
    body reads its recursive reference only below its argument. *)
Lemma normalizeValidator_inner_local (ps : Props) :
  (forall y, size y < size (JObj ps) -> f y = g y) ->
  normalizeValidator_inner f (JObj ps) = normalizeValidator_inner g (JObj ps).
Proof.
  intros H. unfold normalizeValidator_inner.
  repeat match goal with
         | |- (if ?b then _ else _) = (if ?b then _ else _) => destruct b; [reflexivity|]
         end.
  destruct (is_str (get (JObj ps) "kind") "object").
  { destruct (truthy (get (JObj ps) "fields")); [|reflexivity].
    f_equal. apply bind_ext. intros es Hes. apply assign_each_ext.
    intros p HIn. apply H.
    pose proof (size_get ps "fields").
    destruct (size_entries _ _ _ Hes HIn); lia. }
  destruct (is_str (get (JObj ps) "kind") "array").
  { rewrite (H (get (JObj ps) "element")) by apply size_get. reflexivity. }
  destruct (is_str (get (JObj ps) "kind") "union").
  { destruct (get (JObj ps) "members") as [| | | | | | | |ms|] eqn:E; try reflexivity.
    rewrite (mapM_ext ms); [reflexivity|].
    intros x HIn. apply H.
    pose proof (size_get ps "members") as Hlt. rewrite E in Hlt.
    pose proof (size_element _ _ HIn). lia. }
  destruct (is_str (get (JObj ps) "kind") "record"); [|reflexivity].
  rewrite (H (get (JObj ps) "key")) by apply size_get.
  rewrite (H (get (JObj ps) "value")) by apply size_get.
  reflexivity.
Qed.

Lemma normalize_body_local (v : JsVal) :
  (forall y, size y < size v -> f y = g y) ->
  normalize_body f v = normalize_body g v.
Proof.
  intros H. unfold normalize_body.
  destruct (isCodegenDescriptor v); [reflexivity|].
  destruct (isConvexValidator v) eqn:Hv.
  { destruct (isConvexValidator_object v Hv) as [ps ->].
    unfold normalizeValidator.
    now rewrite normalizeValidator_inner_local. }
  destruct v; try reflexivity.
  simpl. rewrite (assign_each_ext ps); [reflexivity|].
  intros [k x] HIn. apply H. eapply size_member, HIn.
Qed.

End Locality.

Lemma normalize_upto_stable (n m : nat) (v : JsVal) :
  size v < n -> size v < m -> normalize_upto n v = normalize_upto m v.
Proof.
  revert m v. induction n as [|n IH]; intros m v Hn Hm; [lia|].
  destruct m as [|m]; [lia|].
  unfold normalize_upto. simpl.
  apply normalize_body_local. intros y Hy. apply IH; lia.
Qed.

(** [normalize] solves the recursive equation the source states. *)
Lemma normalize_eq (val : JsVal) :
  normalize val = normalize_body normalize val.
Proof.
  unfold normalize at 1. unfold normalize_upto. simpl.
  apply normalize_body_local. intros y Hy.
  apply normalize_upto_stable; lia.
Qed.

(* ===================================================================== *)
(** ** Property lists: order and lookup after assignment *)
(* ===================================================================== *)

Lemma is_str_true (v : JsVal) (s : string) : is_str v s = true -> v = JStr s.
Proof.
  destruct v; simpl; try discriminate.
  intros H. apply String.eqb_eq in H. now subst.
Qed.

Lemma before_irrefl (k : string) : before k k = false.
Proof.
  unfold before. destruct (array_index k).
  - apply N.ltb_irrefl.
  - now rewrite String.eqb_refl.
Qed.

Lemma own_order_app_l (l1 l2 : list string) :
  own_order (l1 ++ l2) = true -> own_order l1 = true.
Proof.
  induction l1 as [|k l1 IH]; simpl; [reflexivity|].
  rewrite !andb_true_iff, forallb_app, andb_true_iff. tauto.
Qed.

Lemma own_order_fresh (ps : Props) (k : string) :
  own_order (keys ps ++ [k]) = true -> lookup k ps = None.
Proof.
  induction ps as [|[k' y] ps IH]; simpl; [reflexivity|].
  rewrite andb_true_iff, forallb_app, andb_true_iff. simpl.
  intros [[_ Hk] Hrest].
  destruct (String.eqb_spec k' k) as [->|_]; [|auto].
  rewrite before_irrefl in Hk. discriminate.
Qed.

Lemma insert_index_last (n : N) (k : string) (x : JsVal) (ps : Props) :
  array_index k = Some n ->
  own_order (keys ps ++ [k]) = true ->
  insert_index n k x ps = ps ++ [(k, x)].
Proof.
  intros Hk. induction ps as [|[k' y] ps IH]; simpl; [reflexivity|].
  rewrite andb_true_iff, forallb_app, andb_true_iff. simpl.
  intros [[_ Hb] Hrest]. unfold before in Hb. rewrite Hk in Hb.
  destruct (array_index k') as [m|]; [|discriminate].
  rewrite andb_true_r in Hb. apply N.ltb_lt in Hb.
  destruct (N.ltb_spec n m); [lia|].
  now rewrite IH.
Qed.

(** Assigning a key that comes after every key of the target appends. *)
Lemma obj_set_last (k : string) (x : JsVal) (ps : Props) :
  own_order (keys ps ++ [k]) = true ->
  String.eqb k "__proto__" = false ->
  obj_set k x ps = ps ++ [(k, x)].
Proof.
  intros Hord Hk. unfold obj_set, has_own.
  rewrite (own_order_fresh _ _ Hord), Hk.
  unfold define_own. destruct (array_index k) eqn:E; [|reflexivity].
  now apply insert_index_last.
Qed.

Lemma fields_from_nil (self : JsVal -> Outcome JsVal) : fields_from self [] [].
Proof. split; [reflexivity | constructor]. Qed.

Lemma fields_from_cons (self : JsVal -> Outcome JsVal)
    (k : string) (x d : JsVal) (es qs : Props) :
  self x = Returns d -> fields_from self es qs ->
  fields_from self ((k, x) :: es) ((k, d) :: qs).
Proof.
  intros Hx [Hk HF]. split; simpl; [now f_equal | now constructor].
Qed.

Lemma fields_from_inv (self : JsVal -> Outcome JsVal)
    (k : string) (x : JsVal) (es qs : Props) :
  fields_from self ((k, x) :: es) qs ->
  exists d qs', qs = (k, d) :: qs' /\ self x = Returns d /\ fields_from self es qs'.
Proof.
  intros [Hk HF]. destruct qs as [|[k' d] qs']; [discriminate|].
  simpl in Hk, HF. injection Hk as -> Hk. inversion HF; subst.
  exists d, qs'. repeat split; assumption.
Qed.

Section AssignEach.

Variable self : JsVal -> Outcome JsVal.

Lemma assign_each_order (es qs acc : Props) :
  fields_from self es qs ->
  own_order (keys (acc ++ qs)) = true ->
  no_proto_key (keys qs) = true ->
  assign_each self es acc = Returns (acc ++ qs).
Proof.
  revert qs acc. induction es as [|[k x] es IH]; intros qs acc HF Hord Hproto.
  - destruct HF as [Hk _]. destruct qs; [|discriminate].
    simpl. now rewrite app_nil_r.
  - apply fields_from_inv in HF. destruct HF as (d & qs' & -> & Hx & HF).
    simpl. rewrite Hx. simpl.
    simpl in Hproto. apply andb_true_iff in Hproto. destruct Hproto as [Hk Hproto].
    apply negb_true_iff in Hk.
    assert (Happ : acc ++ (k, d) :: qs' = (acc ++ [(k, d)]) ++ qs')
      by now rewrite <- app_assoc.
    rewrite Happ in Hord |- *.
    rewrite obj_set_last; [apply IH; assumption | | assumption].
    unfold keys in *. rewrite map_app in Hord. apply own_order_app_l in Hord.
    now rewrite map_app in Hord.
Qed.

Lemma assign_each_returns (es acc r : Props) :
  assign_each self es acc = Returns r -> exists qs, fields_from self es qs.
Proof.
  revert acc. induction es as [|[k x] es IH]; simpl; intros acc H.
  - exists []. apply fields_from_nil.
  - destruct (self x) as [d|e] eqn:Hx; simpl in H; [|discriminate].
    destruct (IH _ H) as [qs HF].
    exists ((k, d) :: qs). now apply fields_from_cons.
Qed.

(** The loop over the entries of an object returns exactly the fields of
    the object, in their order, once each value is normalized. *)
Lemma assign_each_fields (es r : Props) :
  own_order (keys es) = true ->
  no_proto_key (keys es) = true ->
  assign_each self es [] = Returns r <-> fields_from self es r.
Proof.
  intros Hord Hproto. split.
  - intros H. destruct (assign_each_returns _ _ _ H) as [qs HF].
    pose proof HF as [Hk _].
    rewrite (assign_each_order es qs []) in H; try assumption;
      [| simpl; now rewrite Hk | now rewrite Hk].
    simpl in H. now injection H as <-.
  - intros HF. pose proof HF as [Hk _].
    apply (assign_each_order es r []); try assumption; simpl; now rewrite Hk.
Qed.

End AssignEach.

Lemma lookup_app (k : string) (ps qs : Props) :
  lookup k (ps ++ qs) =
  match lookup k ps with Some x => Some x | None => lookup k qs end.
Proof.
  induction ps as [|[k' y] ps IH]; simpl; [reflexivity|].
  now destruct (String.eqb k' k).
Qed.

Lemma lookup_replace_own (k k' : string) (x : JsVal) (ps : Props) :
  lookup k' (replace_own k x ps) =
  if String.eqb k k' then match lookup k ps with Some _ => Some x | None => None end
  else lookup k' ps.
Proof.
  induction ps as [|[k0 y] ps IH]; simpl; [now destruct (String.eqb k k')|].
  destruct (String.eqb_spec k0 k) as [->|Hne]; simpl.
  - destruct (String.eqb k k'); reflexivity.
  - rewrite IH. destruct (String.eqb_spec k k') as [->|Hne'].
    + destruct (String.eqb_spec k0 k'); [contradiction | reflexivity].
    + reflexivity.
Qed.

Lemma lookup_insert_index (n : N) (k k' : string) (x : JsVal) (ps : Props) :
  lookup k ps = None ->
  lookup k' (insert_index n k x ps) =
  if String.eqb k k' then Some x else lookup k' ps.
Proof.
  induction ps as [|[k0 y] ps IH]; simpl; [now destruct (String.eqb k k')|].
  destruct (String.eqb_spec k0 k) as [->|Hne]; [discriminate|]. intros Hk.
  destruct (array_index k0) as [m|]; [destruct (N.ltb n m)|]; simpl;
    try reflexivity.
  rewrite (IH Hk).
  destruct (String.eqb_spec k k') as [<-|_]; [|reflexivity].
  destruct (String.eqb_spec k0 k); [contradiction | reflexivity].
Qed.

(** Reading a property after an assignment: the assigned name holds the
    new value (the prototype accessor apart) and every other name is
    left as it was. *)
Lemma lookup_obj_set_same (k : string) (x : JsVal) (ps : Props) :
  String.eqb k "__proto__" = false ->
  lookup k (obj_set k x ps) = Some x.
Proof.
  intros Hk. unfold obj_set, has_own.
  destruct (lookup k ps) eqn:E.
  - now rewrite lookup_replace_own, String.eqb_refl, E.
  - rewrite Hk. unfold define_own. destruct (array_index k).
    + now rewrite lookup_insert_index, String.eqb_refl.
    + rewrite lookup_app, E. simpl. now rewrite String.eqb_refl.
Qed.

Lemma lookup_obj_set_other (k k' : string) (x : JsVal) (ps : Props) :
  String.eqb k k' = false ->
  lookup k' (obj_set k x ps) = lookup k' ps.
Proof.
  intros Hk. unfold obj_set, has_own.
  destruct (lookup k ps) eqn:E.
  - now rewrite lookup_replace_own, Hk.
  - destruct (String.eqb k "__proto__"); [reflexivity|].
    unfold define_own. destruct (array_index k).
    + now rewrite lookup_insert_index, Hk.
    + rewrite lookup_app. simpl. rewrite Hk. now destruct (lookup k' ps).
Qed.

Lemma own_order_NoDup (ks : list string) : own_order ks = true -> NoDup ks.
Proof.
  induction ks as [|k ks IH]; simpl; [constructor|].
  rewrite andb_true_iff. intros [Hk Hrest]. constructor; [|auto].
  intros HIn. rewrite forallb_forall in Hk.
  specialize (Hk k HIn). now rewrite before_irrefl in Hk.
Qed.

Section AssignEachLookup.

Variable self : JsVal -> Outcome JsVal.

Lemma assign_each_lookup_other (es acc r : Props) (k : string) :
  assign_each self es acc = Returns r ->
  ~ In k (keys es) ->
  lookup k r = lookup k acc.
Proof.
  revert acc. induction es as [|[k0 x0] es IH]; simpl; intros acc H Hk.
  - now injection H as <-.
  - destruct (self x0) as [d|e]; simpl in H; [|discriminate].
    rewrite (IH _ H) by tauto.
    apply lookup_obj_set_other.
    destruct (String.eqb_spec k0 k); [subst; tauto | reflexivity].
Qed.

(** After the loop, a field of the source holds what [self] returned on
    its value. *)
Lemma assign_each_lookup (es acc r : Props) (k : string) (x : JsVal) :
  assign_each self es acc = Returns r ->
  NoDup (keys es) ->
  lookup k es = Some x ->
  String.eqb k "__proto__" = false ->
  exists d, self x = Returns d /\ lookup k r = Some d.
Proof.
  revert acc. induction es as [|[k0 x0] es IH]; simpl; intros acc H Hnd Hl Hk;
    [discriminate|].
  destruct (self x0) as [d|e] eqn:Hx; simpl in H; [|discriminate].
  inversion Hnd as [|? ? Hfresh Hnd']; subst.
  destruct (String.eqb_spec k0 k) as [->|Hne].
  - injection Hl as <-. exists d. split; [assumption|].
    rewrite (assign_each_lookup_other _ _ _ _ H Hfresh).
    now apply lookup_obj_set_same.
  - eapply IH; eassumption.
Qed.

End AssignEachLookup.

(* ===================================================================== *)
(** ** The branches of [normalize] *)
(* ===================================================================== *)

Lemma validator_not_descriptor (v : JsVal) :
  isConvexValidator v = true -> isCodegenDescriptor v = false.
Proof.
  unfold isConvexValidator, isCodegenDescriptor.
  rewrite !andb_true_iff. intros [_ H].
  destruct (get v "isConvexValidator") as [| |[|]| | | | | | |]; try discriminate.
  simpl. now rewrite !andb_false_r.
Qed.

Lemma normalize_descriptor (x : JsVal) :
  isCodegenDescriptor x = true -> normalize x = Returns x.
Proof. intros H. rewrite normalize_eq. unfold normalize_body. now rewrite H. Qed.

Lemma normalize_validator (v : JsVal) :
  isConvexValidator v = true -> normalize v = normalizeValidator normalize v.
Proof.
  intros H. rewrite normalize_eq. unfold normalize_body.
  now rewrite (validator_not_descriptor v H), H.
Qed.

Lemma normalize_raw (ps : Props) :
  isCodegenDescriptor (JObj ps) = false ->
  isConvexValidator (JObj ps) = false ->
  normalize (JObj ps) =
  (properties <- assign_each normalize ps [] ;; Returns (desc_object properties)).
Proof.
  intros Hd Hv. rewrite normalize_eq. unfold normalize_body.
  now rewrite Hd, Hv.
Qed.

Lemma normalize_fallback (val : JsVal) :
  isCodegenDescriptor val = false ->
  isConvexValidator val = false ->
  not_null val && String.eqb (typeof val) "object" && negb (isArray val) = false ->
  normalize val = Returns desc_any.
Proof.
  intros Hd Hv Ho. rewrite normalize_eq. unfold normalize_body.
  now rewrite Hd, Hv, Ho.
Qed.

(** What the [switch] builds is a descriptor, and never the wrapper. *)
Lemma normalizeValidator_inner_descriptor
    (self : JsVal -> Outcome JsVal) (v d : JsVal) :
  normalizeValidator_inner self v = Returns d ->
  isCodegenDescriptor d = true /\ is_str (get d "type") "optional" = false.
Proof.
  unfold normalizeValidator_inner. intros H.
  destruct (is_str (get v "kind") "string" || is_str (get v "kind") "boolean"
            || is_str (get v "kind") "int64" || is_str (get v "kind") "null"
            || is_str (get v "kind") "any" || is_str (get v "kind") "bytes") eqn:Hprim.
  { injection H as <-.
    rewrite !orb_true_iff in Hprim.
    repeat destruct Hprim as [Hprim | Hprim];
      apply is_str_true in Hprim; rewrite Hprim; split; reflexivity. }
  destruct (is_str (get v "kind") "float64"); [injection H as <-; split; reflexivity|].
  destruct (is_str (get v "kind") "id"); [injection H as <-; split; reflexivity|].
  destruct (is_str (get v "kind") "literal"); [injection H as <-; split; reflexivity|].
  destruct (is_str (get v "kind") "object").
  { destruct (if truthy (get v "fields") then _ else _); simpl in H; [|discriminate].
    injection H as <-. split; reflexivity. }
  destruct (is_str (get v "kind") "array").
  { destruct (self (get v "element")); simpl in H; [|discriminate].
    injection H as <-. split; reflexivity. }
  destruct (is_str (get v "kind") "union").
  { destruct (get v "members") as [| | | | | | | |members|]; try discriminate.
    destruct (mapM self members); simpl in H; [|discriminate].
    injection H as <-. split; reflexivity. }
  destruct (is_str (get v "kind") "record").
  { destruct (self (get v "key")); simpl in H; [|discriminate].
    destruct (self (get v "value")); simpl in H; [|discriminate].
    injection H as <-. split; reflexivity. }
  injection H as <-. split; reflexivity.
Qed.

Lemma normalizeValidator_descriptor
    (self : JsVal -> Outcome JsVal) (v d : JsVal) :
  normalizeValidator self v = Returns d -> isCodegenDescriptor d = true.
Proof.
  unfold normalizeValidator. intros H.
  destruct (normalizeValidator_inner self v) as [inner|e] eqn:Hinner;
    simpl in H; [|discriminate].
  destruct (is_str (get v "isOptional") "optional"); injection H as <-.
  - reflexivity.
  - now apply normalizeValidator_inner_descriptor in Hinner.
Qed.

(** The [switch] reads the validator through its properties other than
    the optional flag. *)
Lemma normalizeValidator_inner_reads
    (self : JsVal -> Outcome JsVal) (v v' : JsVal) :
  (forall k, String.eqb k "isOptional" = false -> get v' k = get v k) ->
  normalizeValidator_inner self v' = normalizeValidator_inner self v.
Proof.
  intros H. unfold normalizeValidator_inner.
  rewrite !H by reflexivity. reflexivity.
Qed.

(* ===================================================================== *)
(** ** Properties of the specification *)
(* ===================================================================== *)

(** C9.  [normalize] is idempotent on canonical input: an already-canonical
    descriptor [x] (a string-typed [type], no real-validator marker) is
    returned as it is, so normalizing the result of [normalize x] again
    gives the result of [normalize x]. *)
Theorem normalize_idempotent (x : JsVal) :
  isCodegenDescriptor x = true ->
  normalize x = Returns x /\
  (y <- normalize x ;; normalize y) = normalize x.
Proof.
  intros H. rewrite (normalize_descriptor x H). simpl.
  split; [reflexivity | now apply normalize_descriptor].
Qed.

Lemma normalize_idempotent_witness :
  (y <- normalize (V.array V.string) ;; normalize y) = normalize (V.array V.string).
Proof. apply (normalize_idempotent (V.array V.string)). reflexivity. Defined.

(** C10.  Whatever [normalize] returns, on any input, passes the test for
    an already-canonical descriptor (string-typed [type], no marker of a
    real validator), and [normalize] returns it unchanged. *)
Theorem normalize_returns_descriptor (val d : JsVal) :
  normalize val = Returns d ->
  isCodegenDescriptor d = true /\ normalize d = Returns d.
Proof.
  intros H.
  assert (Hd : isCodegenDescriptor d = true).
  { rewrite normalize_eq in H. unfold normalize_body in H.
    destruct (isCodegenDescriptor val) eqn:Hval; [now injection H as <-|].
    destruct (isConvexValidator val);
      [now apply normalizeValidator_descriptor in H|].
    destruct (not_null val && String.eqb (typeof val) "object" && negb (isArray val));
      [|now injection H as <-].
    destruct (entries val) as [es|]; simpl in H; [|discriminate].
    destruct (assign_each normalize es []); simpl in H; [|discriminate].
    now injection H as <-. }
  split; [assumption | now apply normalize_descriptor].
Qed.

Lemma normalize_returns_descriptor_witness :
  isCodegenDescriptor (V.object [("a", V.number)]) = true /\
  normalize (V.object [("a", V.number)]) = Returns (V.object [("a", V.number)]).
Proof.
  apply (normalize_returns_descriptor
           (JObj [("a", real_validator "float64" [] "required")])).
  reflexivity.
Defined.

Lemma unknown_kind_inner (self : JsVal -> Outcome JsVal) (v : JsVal) :
  existsb (is_str (get v "kind")) known_kinds = false ->
  normalizeValidator_inner self v = Returns desc_any.
Proof.
  simpl. rewrite !orb_false_iff.
  intros (? & ? & ? & ? & ? & ? & ? & ? & ? & ? & ? & ? & ? & _).
  unfold normalizeValidator_inner.
  repeat match goal with H : is_str _ _ = false |- _ => rewrite H; clear H end.
  reflexivity.
Qed.

(** C6.  A value of none of the three recognized shapes (no canonical
    descriptor, no real validator, no object other than an array)
    normalizes to [any] and nothing is thrown; a real validator of an
    unknown kind normalizes to [any], inside the optional wrapper when
    its flag is set, and nothing is thrown either. *)
Theorem normalize_falls_back_to_any (val : JsVal) :
  (isCodegenDescriptor val = false ->
   isConvexValidator val = false ->
   not_null val && String.eqb (typeof val) "object" && negb (isArray val) = false ->
   normalize val = Returns V.any) /\
  (isConvexValidator val = true ->
   existsb (is_str (get val "kind")) known_kinds = false ->
   normalize val =
   Returns (if is_str (get val "isOptional") "optional"
            then V.optional V.any else V.any)).
Proof.
  split.
  - apply normalize_fallback.
  - intros Hv Hk. rewrite (normalize_validator val Hv).
    unfold normalizeValidator. rewrite (unknown_kind_inner _ _ Hk). simpl.
    now destruct (is_str (get val "isOptional") "optional").
Qed.

Lemma normalize_falls_back_to_any_witness :
  normalize (JArr [JNum 1; JStr "a"]) = Returns V.any /\
  normalize (real_validator "decimal" [] "optional") = Returns (V.optional V.any).
Proof.
  split.
  - apply (proj1 (normalize_falls_back_to_any (JArr [JNum 1; JStr "a"])));
      reflexivity.
  - apply (proj2 (normalize_falls_back_to_any
                    (real_validator "decimal" [] "optional")));
      reflexivity.
Defined.

(** C2, as the code has it.  A real validator of kind ["float64"] that is
    not flagged optional normalizes to the descriptor whose [type] is
    ["number"], the name the code generator reads. *)
Theorem normalize_float64_is_number (v : JsVal) :
  isConvexValidator v = true ->
  is_str (get v "kind") "float64" = true ->
  is_str (get v "isOptional") "optional" = false ->
  normalize v = Returns V.number /\ get V.number "type" = JStr "number".
Proof.
  intros Hv Hk Ho. split; [|reflexivity].
  rewrite (normalize_validator v Hv). unfold normalizeValidator.
  rewrite Ho. unfold normalizeValidator_inner.
  apply is_str_true in Hk. rewrite Hk. reflexivity.
Qed.

Lemma normalize_float64_is_number_witness :
  normalize (real_validator "float64" [] "required") = Returns V.number /\
  get V.number "type" = JStr "number".
Proof.
  apply (normalize_float64_is_number (real_validator "float64" [] "required"));
    reflexivity.
Defined.

(** C2, as the specification words it, fails: the real validator
    [{ kind: "float64", isOptional: "required", isConvexValidator: true }]
    does not normalize to the descriptor whose [type] is ["float64"]. *)
Lemma normalize_float64_not_float64 :
  let v := real_validator "float64" [] "required" in
  isConvexValidator v = true /\
  is_str (get v "kind") "float64" = true /\
  is_str (get v "isOptional") "optional" = false /\
  normalize v <> Returns V.float64 /\
  (forall d, normalize v = Returns d -> get d "type" <> JStr "float64").
Proof.
  repeat split; try reflexivity.
  - discriminate.
  - intros d H. vm_compute in H. injection H as <-. discriminate.
Qed.

(** C3.  A real validator [v'] whose flag is not ["optional"] normalizes
    to a descriptor that is no optional wrapper.  The same validator with
    the flag set ([v], equal to [v'] on every other property) normalizes
    to one optional wrapper around that descriptor: neither zero wrappers
    nor two. *)
Theorem optional_flag_wraps_once (v v' : JsVal) :
  isConvexValidator v' = true ->
  is_str (get v' "isOptional") "optional" = false ->
  (forall inner, normalize v' = Returns inner ->
                 is_str (get inner "type") "optional" = false) /\
  (isConvexValidator v = true ->
   is_str (get v "isOptional") "optional" = true ->
   (forall k, String.eqb k "isOptional" = false -> get v k = get v' k) ->
   normalize v = (inner <- normalize v' ;; Returns (V.optional inner))).
Proof.
  intros Hv' Hreq.
  rewrite (normalize_validator v' Hv').
  unfold normalizeValidator at 1 2. rewrite Hreq.
  split.
  - intros inner H.
    destruct (normalizeValidator_inner normalize v') as [d|e] eqn:Hinner;
      simpl in H; [|discriminate].
    injection H as <-. now apply normalizeValidator_inner_descriptor in Hinner.
  - intros Hv Hopt Hsame.
    rewrite (normalize_validator v Hv). unfold normalizeValidator. rewrite Hopt.
    rewrite (normalizeValidator_inner_reads normalize v' v Hsame).
    now destruct (normalizeValidator_inner normalize v').
Qed.

Lemma optional_flag_wraps_once_witness :
  normalize (real_validator "array" [("element", real_validator "string" [] "optional")] "optional")
  = Returns (V.optional (V.array (V.optional V.string))) /\
  normalize (real_validator "array" [("element", real_validator "string" [] "optional")] "required")
  = Returns (V.array (V.optional V.string)).
Proof.
  destruct (optional_flag_wraps_once
    (real_validator "array" [("element", real_validator "string" [] "optional")] "optional")
    (real_validator "array" [("element", real_validator "string" [] "optional")] "required")
    eq_refl eq_refl) as [_ H].
  split; [|reflexivity].
  rewrite H; try reflexivity.
  intros k Hk. unfold real_validator, get. cbn [app lookup].
  destruct (String.eqb_spec "kind" k); [reflexivity|].
  destruct (String.eqb_spec "element" k); [reflexivity|].
  rewrite String.eqb_sym, Hk. reflexivity.
Defined.

Lemma mapM_returns {A B : Type} (f : A -> Outcome B) (xs : list A) (ys : list B) :
  mapM f xs = Returns ys <-> Forall2 (fun x y => f x = Returns y) xs ys.
Proof.
  revert ys. induction xs as [|x xs IH]; simpl; intros ys.
  - split; [intros [= <-]; constructor | intros H; now inversion H].
  - split.
    + destruct (f x) as [y|e] eqn:Hx; simpl; [|discriminate].
      destruct (mapM f xs) as [ys'|e]; simpl; [|discriminate].
      intros [= <-]. constructor; [assumption | now apply IH].
    + intros H. inversion H as [|? y ? ys' Hx Hrest]; subst.
      rewrite Hx. simpl. apply IH in Hrest. now rewrite Hrest.
Qed.

Lemma normalize_object_validator (v : JsVal) (fps : Props) :
  isConvexValidator v = true ->
  is_str (get v "kind") "object" = true ->
  get v "fields" = JObj fps ->
  normalize v =
  (properties <- assign_each normalize fps [] ;;
   Returns (wrap_if_optional v (V.object properties))).
Proof.
  intros Hv Hk Hf. rewrite (normalize_validator v Hv).
  unfold normalizeValidator, normalizeValidator_inner, wrap_if_optional.
  apply is_str_true in Hk. rewrite Hk, Hf. simpl.
  destruct (assign_each normalize fps []); simpl; [|reflexivity].
  now destruct (is_str (get v "isOptional") "optional").
Qed.

Lemma normalize_union_validator (v : JsVal) (ms : list JsVal) :
  isConvexValidator v = true ->
  is_str (get v "kind") "union" = true ->
  get v "members" = JArr ms ->
  normalize v =
  (variants <- mapM normalize ms ;;
   Returns (wrap_if_optional v (V.union variants))).
Proof.
  intros Hv Hk Hm. rewrite (normalize_validator v Hv).
  unfold normalizeValidator, normalizeValidator_inner, wrap_if_optional.
  apply is_str_true in Hk. rewrite Hk, Hm. simpl.
  destruct (mapM normalize ms); simpl; [|reflexivity].
  now destruct (is_str (get v "isOptional") "optional").
Qed.

Lemma bind_returns {A B : Type} (m : Outcome A) (k : A -> B) (b : B) :
  (a <- m ;; Returns (k a)) = Returns b <-> exists a, m = Returns a /\ b = k a.
Proof.
  destruct m as [a|e]; simpl; split.
  - intros [= <-]. eauto.
  - intros (a' & [= <-] & ->). reflexivity.
  - discriminate.
  - intros (a' & H & _). discriminate.
Qed.

(** Where no field is named [__proto__], [normalize] keeps the
    declaration order.  For a raw field
    mapping and for a real object validator, the returned object
    descriptor lists the fields of the input, name by name in the order
    of the input, each with its value normalized; for a real union
    validator the returned union descriptor lists the normalized members
    in the order of the input.  The keys of an object are taken as
    [Object.entries] lists them, and no field is named [__proto__]. *)
Theorem normalize_preserves_order :
  (forall ps,
      isCodegenDescriptor (JObj ps) = false ->
      isConvexValidator (JObj ps) = false ->
      own_order (keys ps) = true ->
      no_proto_key (keys ps) = true ->
      forall d, normalize (JObj ps) = Returns d <->
                exists qs, fields_from normalize ps qs /\ d = V.object qs) /\
  (forall v fps,
      isConvexValidator v = true ->
      is_str (get v "kind") "object" = true ->
      get v "fields" = JObj fps ->
      own_order (keys fps) = true ->
      no_proto_key (keys fps) = true ->
      forall d, normalize v = Returns d <->
                exists qs, fields_from normalize fps qs /\
                           d = wrap_if_optional v (V.object qs)) /\
  (forall v ms,
      isConvexValidator v = true ->
      is_str (get v "kind") "union" = true ->
      get v "members" = JArr ms ->
      forall d, normalize v = Returns d <->
                exists ds, Forall2 (fun m d' => normalize m = Returns d') ms ds /\
                           d = wrap_if_optional v (V.union ds)).
Proof.
  split; [|split].
  - intros ps Hd Hv Hord Hproto d.
    rewrite (normalize_raw ps Hd Hv).
    rewrite (bind_returns _ (fun qs => desc_object qs)).
    split; intros (qs & H & ->); exists qs; split; trivial;
      now apply (assign_each_fields normalize ps qs Hord Hproto).
  - intros v fps Hv Hk Hf Hord Hproto d.
    rewrite (normalize_object_validator v fps Hv Hk Hf).
    rewrite (bind_returns _ (fun qs => wrap_if_optional v (V.object qs))).
    split; intros (qs & H & ->); exists qs; split; trivial;
      now apply (assign_each_fields normalize fps qs Hord Hproto).
  - intros v ms Hv Hk Hm d.
    rewrite (normalize_union_validator v ms Hv Hk Hm).
    rewrite (bind_returns _ (fun ds => wrap_if_optional v (V.union ds))).
    split; intros (ds & H & ->); exists ds; split; trivial;
      now apply mapM_returns.
Qed.

Lemma normalize_preserves_order_witness :
  normalize (JObj [("b", real_validator "string" [] "required");
                   ("a", real_validator "float64" [] "required");
                   ("c", real_validator "boolean" [] "optional")])
  = Returns (V.object [("b", V.string); ("a", V.number);
                       ("c", V.optional V.boolean)]) /\
  normalize (real_validator "object"
               [("fields", JObj [("7", real_validator "null" [] "required");
                                 ("b", real_validator "string" [] "required");
                                 ("a", real_validator "int64" [] "required")])]
               "required")
  = Returns (V.object [("7", V.null); ("b", V.string); ("a", V.int64)]) /\
  normalize (real_validator "union"
               [("members", JArr [real_validator "string" [] "required";
                                  real_validator "null" [] "required"])]
               "required")
  = Returns (V.union [V.string; V.null]).
Proof.
  destruct normalize_preserves_order as (Hraw & Hobj & Huni).
  split; [|split].
  - apply Hraw; try reflexivity.
    exists [("b", V.string); ("a", V.number); ("c", V.optional V.boolean)].
    split; [split|]; [reflexivity | repeat constructor | reflexivity].
  - eapply Hobj; try reflexivity.
    exists [("7", V.null); ("b", V.string); ("a", V.int64)].
    split; [split|]; [reflexivity | repeat constructor | reflexivity].
  - eapply Huni; try reflexivity.
    exists [V.string; V.null].
    split; [repeat constructor | reflexivity].
Defined.

(** The condition on [__proto__] cannot be dropped: assigning to that
    name reaches the accessor of [Object.prototype], so a field of that
    name does not become a property of the result. *)
Remark normalize_drops_proto_field :
  normalize (JObj [("__proto__", real_validator "string" [] "required");
                   ("a", real_validator "float64" [] "required")])
  = Returns (V.object [("a", V.number)]).
Proof. reflexivity. Qed.

(** C5, at the input on which the code loses a field.  The raw mapping
    and the real object validator with the fields [b], [__proto__], [a]
    (an own enumerable property of that name, as a computed key or
    [JSON.parse] creates it) normalize to an object descriptor whose
    field sequence is [b], [a]: not the field sequence of the input.  The
    canonical object descriptor of the same fields comes back with all
    three. *)
Theorem field_named_proto_is_lost :
  let fields := [("b", V.string); ("__proto__", V.null); ("a", V.number)] in
  let rfields := [("b", real_validator "string" [] "required");
                  ("__proto__", real_validator "null" [] "required");
                  ("a", real_validator "float64" [] "required")] in
  own_order (keys rfields) = true /\
  normalize (JObj rfields) = Returns (V.object [("b", V.string); ("a", V.number)]) /\
  normalize (real_validator "object" [("fields", JObj rfields)] "required")
  = Returns (V.object [("b", V.string); ("a", V.number)]) /\
  keys [("b", V.string); ("a", V.number)] <> keys rfields /\
  normalize (V.object fields) = Returns (V.object fields).
Proof. repeat split. discriminate. Qed.

Lemma descriptor_fields_read (fields : Props) (k : string) :
  Forall (fun p => isCodegenDescriptor (snd p) = true) fields ->
  get (JObj fields) k = JUndefined \/
  isCodegenDescriptor (get (JObj fields) k) = true.
Proof.
  intros H. unfold get. destruct (lookup k fields) as [x|] eqn:E; [|now left].
  right. apply lookup_In in E. rewrite Forall_forall in H. apply (H (k, x) E).
Qed.

Lemma descriptor_is_object (d : JsVal) :
  isCodegenDescriptor d = true -> exists ps, d = JObj ps.
Proof. destruct d; try discriminate. eauto. Qed.

(** A mapping from field names to descriptors is itself neither a
    descriptor nor a real validator. *)
Lemma descriptor_fields_raw (fields : Props) :
  Forall (fun p => isCodegenDescriptor (snd p) = true) fields ->
  isCodegenDescriptor (JObj fields) = false /\
  isConvexValidator (JObj fields) = false.
Proof.
  intros H. unfold isCodegenDescriptor, isConvexValidator. split.
  - destruct (descriptor_fields_read fields "type" H) as [-> | Hd];
      [reflexivity|].
    destruct (descriptor_is_object _ Hd) as [ps ->]. reflexivity.
  - destruct (descriptor_fields_read fields "isConvexValidator" H) as [-> | Hd];
      [reflexivity|].
    destruct (descriptor_is_object _ Hd) as [ps ->]. reflexivity.
Qed.

Lemma fields_from_descriptors (fields : Props) :
  Forall (fun p => isCodegenDescriptor (snd p) = true) fields ->
  fields_from normalize fields fields.
Proof.
  intros H. split; [reflexivity|].
  induction H as [|[k d] fields Hd _ IH]; simpl; constructor; [|exact IH].
  now apply normalize_descriptor.
Qed.

(** Three shapes, one descriptor, for any descriptors as field values:
    the raw mapping [fields] from names to canonical
    descriptors, the canonical object descriptor with these fields, and a
    real validator of kind ["object"] (not flagged optional) whose fields
    are the counterparts of [fields], each normalizing to the descriptor
    of the same name.  The keys are taken as [Object.entries] lists them,
    and no field is named [__proto__]. *)
Theorem three_shapes_one_descriptor (fields : Props) (real : JsVal) (rfields : Props) :
  Forall (fun p => isCodegenDescriptor (snd p) = true) fields ->
  own_order (keys fields) = true ->
  no_proto_key (keys fields) = true ->
  isConvexValidator real = true ->
  is_str (get real "kind") "object" = true ->
  is_str (get real "isOptional") "optional" = false ->
  get real "fields" = JObj rfields ->
  fields_from normalize rfields fields ->
  normalize (JObj fields) = Returns (V.object fields) /\
  normalize (V.object fields) = Returns (V.object fields) /\
  normalize real = Returns (V.object fields).
Proof.
  intros Hdesc Hord Hproto Hv Hk Hreq Hf Hreal.
  destruct (descriptor_fields_raw fields Hdesc) as [Hnd Hnv].
  split; [|split].
  - rewrite (normalize_raw fields Hnd Hnv).
    pose proof (fields_from_descriptors fields Hdesc) as HF.
    apply (assign_each_fields normalize fields fields Hord Hproto) in HF.
    now rewrite HF.
  - now apply normalize_descriptor.
  - rewrite (normalize_object_validator real rfields Hv Hk Hf).
    pose proof Hreal as [Hkeys _].
    assert (HF : assign_each normalize rfields [] = Returns fields).
    { apply assign_each_fields; [now rewrite <- Hkeys | now rewrite <- Hkeys | assumption]. }
    rewrite HF. simpl. unfold wrap_if_optional. now rewrite Hreq.
Qed.

Lemma three_shapes_one_descriptor_witness :
  let fields := [("b", V.string); ("a", V.number); ("c", V.optional V.boolean)] in
  let real :=
    real_validator "object"
      [("fields", JObj [("b", real_validator "string" [] "required");
                        ("a", real_validator "float64" [] "required");
                        ("c", real_validator "boolean" [] "optional")])]
      "required" in
  normalize (JObj fields) = Returns (V.object fields) /\
  normalize (V.object fields) = Returns (V.object fields) /\
  normalize real = Returns (V.object fields).
Proof.
  intros fields real.
  apply (three_shapes_one_descriptor fields real
           [("b", real_validator "string" [] "required");
            ("a", real_validator "float64" [] "required");
            ("c", real_validator "boolean" [] "optional")]);
    try reflexivity.
  - repeat constructor.
  - split; [reflexivity | repeat constructor].
Defined.

Lemma normalize_literal_validator (lit : JsVal) :
  isConvexValidator lit = true ->
  is_str (get lit "kind") "literal" = true ->
  is_str (get lit "isOptional") "optional" = false ->
  normalize lit = Returns (V.literal (get lit "value")).
Proof.
  intros Hv Hk Hreq. rewrite (normalize_validator lit Hv).
  unfold normalizeValidator, normalizeValidator_inner.
  apply is_str_true in Hk. rewrite Hk, Hreq. reflexivity.
Qed.

Lemma normalize_literal_validator_flag (lit : JsVal) :
  isConvexValidator lit = true ->
  is_str (get lit "kind") "literal" = true ->
  normalize lit = Returns (wrap_if_optional lit (V.literal (get lit "value"))).
Proof.
  intros Hv Hk. rewrite (normalize_validator lit Hv).
  unfold normalizeValidator, normalizeValidator_inner, wrap_if_optional.
  apply is_str_true in Hk. rewrite Hk. simpl.
  now destruct (is_str (get lit "isOptional") "optional").
Qed.

Lemma tagged_validator_normalized (m d : JsVal) :
  tagged_validator m -> normalize m = Returns d -> tag_kept m d.
Proof.
  intros (Hv & Hk & fps & lit & Hf & Hord & Hl & Hlv & Hlk) H.
  rewrite (normalize_object_validator m fps Hv Hk Hf) in H.
  destruct (assign_each normalize fps []) as [qs|e] eqn:Hqs; simpl in H;
    [|discriminate].
  injection H as <-. exists fps, lit, qs. repeat split; try assumption.
  destruct (assign_each_lookup normalize fps [] qs "type" lit Hqs
              (own_order_NoDup _ Hord) Hl eq_refl) as (d & Hd & Hq).
  rewrite (normalize_literal_validator_flag lit Hlv Hlk) in Hd.
  now injection Hd as <-.
Qed.

(** C4, as the code has it.  A real union validator whose members are all
    tagged members normalizes to a union descriptor, inside one optional
    wrapper when the union validator is flagged optional.  The union
    descriptor has one variant per member, in the order of the members,
    each variant being the normalized member: an object descriptor
    (wrapped when the member is flagged) that still has its field [type],
    the literal descriptor with the value of the member's literal
    validator (wrapped when that validator is flagged). *)
Theorem tagged_union_kept (v : JsVal) (ms : list JsVal) :
  isConvexValidator v = true ->
  is_str (get v "kind") "union" = true ->
  get v "members" = JArr ms ->
  Forall tagged_validator ms ->
  forall d,
    normalize v = Returns d <->
    exists ds, d = wrap_if_optional v (V.union ds) /\
               Forall2 (fun m d' => normalize m = Returns d' /\ tag_kept m d') ms ds.
Proof.
  intros Hv Hk Hm Htagged d.
  rewrite (normalize_union_validator v ms Hv Hk Hm).
  rewrite (bind_returns _ (fun ds => wrap_if_optional v (V.union ds))).
  split.
  - intros (ds & Hds & ->). exists ds. split; [reflexivity|].
    apply mapM_returns in Hds. clear Hm.
    induction Hds as [|m d' ms ds Hmd _ IH]; constructor.
    + split; [assumption|].
      inversion Htagged; subst. now apply tagged_validator_normalized.
    + apply IH. now inversion Htagged.
  - intros (ds & -> & Hds). exists ds. split; [|reflexivity].
    apply mapM_returns. eapply Forall2_impl; [|exact Hds].
    intros m d' [H _]. exact H.
Qed.

Lemma tagged_union_kept_witness :
  let variant (tag : string) (rest : Props) (flag : string) :=
    real_validator "object"
      [("fields",
        JObj (("type", real_validator "literal" [("value", JStr tag)] "required")
              :: rest))]
      flag in
  normalize
    (real_validator "union"
       [("members",
         JArr [variant "Win" [("bonus", real_validator "float64" [] "required")]
                 "required";
               variant "Loss" [("penalty", real_validator "float64" [] "required")]
                 "required";
               variant "Draw" [] "required"])]
       "required")
  = Returns
      (V.union
         [V.object [("type", V.literal (JStr "Win")); ("bonus", V.number)];
          V.object [("type", V.literal (JStr "Loss")); ("penalty", V.number)];
          V.object [("type", V.literal (JStr "Draw"))]]) /\
  normalize
    (real_validator "union"
       [("members", JArr [variant "Win" [] "required"; variant "Draw" [] "required"])]
       "optional")
  = Returns
      (V.optional
         (V.union [V.object [("type", V.literal (JStr "Win"))];
                   V.object [("type", V.literal (JStr "Draw"))]])).
Proof.
  intros variant. split.
  - eapply tagged_union_kept; try reflexivity.
    + repeat constructor; (do 2 eexists; repeat split; reflexivity).
    + eexists. split; [reflexivity|].
      repeat constructor; (do 3 eexists; repeat split; reflexivity).
  - eapply tagged_union_kept; try reflexivity.
    + repeat constructor; (do 2 eexists; repeat split; reflexivity).
    + eexists. split; [reflexivity|].
      repeat constructor; (do 3 eexists; repeat split; reflexivity).
Defined.

(** C4, as the specification words it, fails on a union validator that is
    flagged optional (what [v.optional(v.union(...))] builds): its
    members are tagged object validators, and [normalize] returns the
    optional wrapper, a descriptor of type ["optional"], not a union
    descriptor. *)
Lemma flagged_union_is_wrapped :
  let variant (tag : string) :=
    real_validator "object"
      [("fields",
        JObj [("type", real_validator "literal" [("value", JStr tag)] "required")])]
      "required" in
  let v := real_validator "union"
             [("members", JArr [variant "Win"; variant "Draw"])] "optional" in
  isConvexValidator v = true /\
  is_str (get v "kind") "union" = true /\
  normalize v
  = Returns (V.optional (V.union [V.object [("type", V.literal (JStr "Win"))];
                                  V.object [("type", V.literal (JStr "Draw"))]])) /\
  (forall d, normalize v = Returns d -> get d "type" <> JStr "union") /\
  (forall d, normalize v = Returns d ->
             forall variants, d <> V.union variants).
Proof.
  repeat split.
  - intros d H. vm_compute in H. injection H as <-. discriminate.
  - intros d H variants. vm_compute in H. injection H as <-. discriminate.
Qed.

(* --------------------------------------------------------------------- *)
(** *** File names *)

Lemma split_slash_cons (s : string) : exists part parts, split_slash s = part :: parts.
Proof.
  induction s as [|c s (part & parts & IH)]; simpl; [eauto|].
  destruct (Ascii.eqb c "/"); [eauto|]. rewrite IH. eauto.
Qed.

Lemma split_slash_base (base : string) :
  no_slash base = true -> split_slash base = [base].
Proof.
  induction base as [|c s IH]; simpl; [reflexivity|].
  rewrite andb_true_iff. intros [Hc Hs]. apply negb_true_iff in Hc.
  now rewrite Hc, (IH Hs).
Qed.

Lemma split_slash_app (d s : string) :
  split_slash (d ++ String "/" s)%string = split_slash d ++ split_slash s.
Proof.
  induction d as [|c d IH]; simpl; [reflexivity|].
  rewrite IH. destruct (Ascii.eqb c "/"); [reflexivity|].
  destruct (split_slash_cons d) as (part & parts & ->). reflexivity.
Qed.

Lemma last_snoc {A : Type} (l : list A) (x d : A) : last (l ++ [x]) d = x.
Proof.
  induction l as [|y l IH]; [reflexivity|].
  simpl. destruct (l ++ [x]) eqn:E; [now destruct l | exact IH].
Qed.

Lemma rawName_in_directory (dir : option string) (base d : string) :
  no_slash base = true ->
  last (split_slash (in_directory dir base)) d = base.
Proof.
  intros H. destruct dir as [dir|]; simpl.
  - rewrite split_slash_app, (split_slash_base base H). apply last_snoc.
  - now rewrite (split_slash_base base H).
Qed.

Lemma length_append (s t : string) :
  String.length (s ++ t)%string = String.length s + String.length t.
Proof. induction s as [|c s IH]; simpl; [reflexivity | now rewrite IH]. Qed.

Lemma strip_ts_suffix (stem : string) : strip_ts (stem ++ ".ts")%string = stem.
Proof.
  induction stem as [|c s IH]; [reflexivity|].
  cbn [append strip_ts]. rewrite IH.
  destruct (String.eqb_spec (String c (s ++ ".ts")) ".ts") as [E|_];
    [|reflexivity].
  apply (f_equal String.length) in E. simpl in E.
  rewrite length_append in E. simpl in E. lia.
Qed.

Lemma strip_ts_other (s : string) :
  (forall stem, s <> (stem ++ ".ts")%string) -> strip_ts s = s.
Proof.
  induction s as [|c s IH]; [reflexivity|]. intros H.
  cbn [strip_ts].
  destruct (String.eqb_spec (String c s) ".ts") as [E|_];
    [exfalso; apply (H EmptyString E)|].
  rewrite IH; [reflexivity|].
  intros stem ->. apply (H (String c stem)). reflexivity.
Qed.

Lemma get_nullish_or_empty (config : JsVal) (k : string) :
  get (nullish_or config (JObj [])) k = get config k.
Proof. destruct config; reflexivity. Qed.

(** C7, as the code has it.  For an export tagged by a function registrar
    whose configuration declares no parameters and no return validator,
    the driver appends one record: [name] the binding name of the export,
    [type] the kind the registrar recorded, [params] empty, [return_type]
    [null] (and not the descriptor of [null]), [file_name] what follows
    the last slash of the module path, without a final [.ts]: the base
    name [stem.ts] gives [stem], and a base name that does not end in
    [.ts] is kept whole. *)
Theorem registered_function_without_args
    (fp exportName kind : string) (config : JsVal)
    (functions : list FunctionRecord.t) :
  declares_no_args config ->
  declares_no_returns config ->
  extract_export (fileName_of fp) exportName
    (makeFunctionRegistrar kind config) functions
  = Returns (functions ++
             [{| FunctionRecord.name := exportName;
                 FunctionRecord.type := JStr kind;
                 FunctionRecord.params := [];
                 FunctionRecord.return_type := JNull;
                 FunctionRecord.file_name := fileName_of fp |}]) /\
  JNull <> V.null /\
  (forall dir stem,
      no_slash stem = true ->
      fp = in_directory dir (stem ++ ".ts")%string ->
      fileName_of fp = stem) /\
  (forall dir base,
      no_slash base = true ->
      (forall stem, base <> (stem ++ ".ts")%string) ->
      fp = in_directory dir base ->
      fileName_of fp = base).
Proof.
  intros Hargs Hret. split; [|split; [discriminate|split]].
  - unfold extract_export, makeFunctionRegistrar.
    cbn [not_null typeof has_property lookup String.eqb Ascii.eqb Bool.eqb andb].
    change (get (JObj [("__type", JStr kind); ("__config", config)]) "__config")
      with config.
    change (get (JObj [("__type", JStr kind); ("__config", config)]) "__type")
      with (JStr kind).
    rewrite !get_nullish_or_empty.
    destruct Hret as [-> | ->];
      destruct Hargs as [-> | [-> | ->]]; reflexivity.
  - intros dir stem Hstem ->. unfold fileName_of.
    rewrite rawName_in_directory; [apply strip_ts_suffix|].
    clear dir. induction stem as [|c s IH]; [reflexivity|].
    simpl in *. apply andb_true_iff in Hstem. destruct Hstem as [-> Hs].
    now rewrite IH.
  - intros dir base Hbase Hext ->. unfold fileName_of.
    rewrite rawName_in_directory by assumption. now apply strip_ts_other.
Qed.

Lemma registered_function_without_args_witness :
  extract_modules
    (fun fp => if String.eqb fp "convex/games.ts"
               then Returns (JObj [("helper", JFun 1);
                                   ("winGame", mutation (JObj [("handler", JFun 0)]))])
               else Throws TypeError)
    ["convex/games.ts"] []
  = Returns [{| FunctionRecord.name := "winGame";
                FunctionRecord.type := JStr "mutation";
                FunctionRecord.params := [];
                FunctionRecord.return_type := JNull;
                FunctionRecord.file_name := "games" |}].
Proof.
  destruct (registered_function_without_args "convex/games.ts" "winGame" "mutation"
              (JObj [("handler", JFun 0)]) [])
    as (Hrec & _ & Hts & _).
  - left. reflexivity.
  - left. reflexivity.
  - rewrite (Hts (Some "convex") "games" eq_refl eq_refl) in Hrec.
    cbn [extract_modules String.eqb Ascii.eqb Bool.eqb bind entries extract_exports].
    change (extract_export (fileName_of "convex/games.ts") "helper" (JFun 1) [])
      with (Returns (@nil FunctionRecord.t)).
    cbn [bind]. unfold mutation.
    rewrite (Hts (Some "convex") "games" eq_refl eq_refl).
    rewrite Hrec. reflexivity.
Defined.

(** C7, as the specification words it, fails on a module that is not a
    [.ts] file: for the export [winGame] of [convex/games.js] the record
    carries the file name [games.js], not the base name without its
    extension, [games]. *)
Lemma file_name_keeps_other_extension :
  exists r,
    extract_export (fileName_of "convex/games.js") "winGame"
      (mutation (JObj [("handler", JFun 0)])) [] = Returns [r] /\
    FunctionRecord.name r = "winGame" /\
    FunctionRecord.params r = [] /\
    FunctionRecord.return_type r = JNull /\
    FunctionRecord.file_name r = "games.js" /\
    FunctionRecord.file_name r <> "games".
Proof.
  eexists. split; [reflexivity|]. repeat split. discriminate.
Qed.

(** C8, as the code has it.  Each of the two stand-ins for the pagination
    options is the object descriptor with the numeric field [numItems]
    (of type ["number"] in one module, ["float64"] in the other) and the
    field [cursor], a union of the string and the null descriptors. *)
Theorem paginationOptsValidator_shape :
  MockServer.paginationOptsValidator
  = V.object [("numItems", V.number); ("cursor", V.union [V.string; V.null])] /\
  NormalizingServer.paginationOptsValidator
  = V.object [("numItems", V.float64); ("cursor", V.union [V.string; V.null])] /\
  isCodegenDescriptor MockServer.paginationOptsValidator = true /\
  isCodegenDescriptor NormalizingServer.paginationOptsValidator = true.
Proof. repeat split. Qed.

(** C8, as the specification words it, fails: in neither module is the
    [cursor] field the optional wrapper around the string descriptor, nor
    any optional wrapper at all. *)
Lemma pagination_cursor_not_optional :
  get (get MockServer.paginationOptsValidator "properties") "cursor"
    <> V.optional V.string /\
  get (get NormalizingServer.paginationOptsValidator "properties") "cursor"
    <> V.optional V.string /\
  get (get (get MockServer.paginationOptsValidator "properties") "cursor") "type"
    <> JStr "optional" /\
  get (get (get NormalizingServer.paginationOptsValidator "properties") "cursor") "type"
    <> JStr "optional".
Proof. repeat split; discriminate. Qed.

(* ===================================================================== *)
(** ** Further properties of [normalize] *)
(* ===================================================================== *)

(** The recursion of [normalize] is well founded.  The function solves
    the recursive definition the source gives, and since the body asks
    for recursive results only on values strictly inside its argument,
    it is the only function that does. *)
Theorem normalize_only_solution :
  (forall val, normalize val = normalize_body normalize val) /\
  (forall f : JsVal -> Outcome JsVal,
      (forall val, f val = normalize_body f val) ->
      forall val, f val = normalize val).
Proof.
  split; [exact normalize_eq|].
  intros f Hf val.
  remember (size val) as n eqn:Hn. revert val Hn.
  induction n as [n IH] using lt_wf_ind. intros val ->.
  rewrite Hf, normalize_eq. apply normalize_body_local.
  intros y Hy. now apply (IH (size y)).
Qed.

Lemma normalize_only_solution_witness :
  normalize_body normalize (JObj [("a", JArr [JNull])])
  = normalize (JObj [("a", JArr [JNull])]).
Proof.
  apply (proj2 normalize_only_solution (normalize_body normalize)).
  intros val. apply normalize_body_local. intros y _. apply normalize_eq.
Defined.

Lemma error_unique (e : JsError) : e = TypeError.
Proof. now destruct e. Qed.

Lemma no_members_throws (self : JsVal -> Outcome JsVal) (v : JsVal) :
  is_str (get v "kind") "union" = true ->
  no_members (get v "members") = true ->
  normalizeValidator self v = Throws TypeError.
Proof.
  intros Hk Hm. unfold normalizeValidator, normalizeValidator_inner.
  apply is_str_true in Hk. rewrite Hk. simpl.
  destruct (get v "members"); try discriminate; reflexivity.
Qed.

(** A real union validator that has no array of members is the one
    input [normalize] throws on by itself: [members.map] is no function
    call on [undefined], [null], a primitive or an object without a
    callable [map]. *)
Theorem union_without_members_throws (v : JsVal) :
  isConvexValidator v = true ->
  is_str (get v "kind") "union" = true ->
  no_members (get v "members") = true ->
  normalize v = Throws TypeError.
Proof.
  intros Hv Hk Hm. rewrite (normalize_validator v Hv).
  now apply no_members_throws.
Qed.

Lemma union_without_members_throws_witness :
  normalize (real_validator "union" [] "required") = Throws TypeError /\
  normalize (real_validator "union" [("members", JStr "ab")] "optional") = Throws TypeError.
Proof.
  split.
  - apply (union_without_members_throws (real_validator "union" [] "required"));
      reflexivity.
  - apply (union_without_members_throws
             (real_validator "union" [("members", JStr "ab")] "optional"));
      reflexivity.
Defined.

Section AssignEachThrows.

Variable self : JsVal -> Outcome JsVal.

Lemma assign_each_throws (es acc : Props) :
  assign_each self es acc = Throws TypeError <->
  exists x, In x (map snd es) /\ self x = Throws TypeError.
Proof.
  revert acc. induction es as [|[k x] es IH]; simpl; intros acc.
  - split; [discriminate | intros (x & [] & _)].
  - destruct (self x) as [d|e] eqn:Hx; simpl.
    + rewrite IH. split; intros (y & HIn & Hy); exists y.
      * split; [now right | assumption].
      * destruct HIn as [<- | HIn]; [congruence | now split].
    + rewrite (error_unique e). split; [|reflexivity].
      intros _. exists x. split; [now left | now rewrite Hx, (error_unique e)].
Qed.

End AssignEachThrows.

Lemma mapM_throws (f : JsVal -> Outcome JsVal) (xs : list JsVal) :
  mapM f xs = Throws TypeError <->
  exists x, In x xs /\ f x = Throws TypeError.
Proof.
  induction xs as [|x xs IH]; simpl.
  - split; [discriminate | intros (x & [] & _)].
  - destruct (f x) as [y|e] eqn:Hx; simpl.
    + destruct (mapM f xs) as [ys|e'] eqn:Hxs; simpl.
      * split; [discriminate|].
        intros (z & [<- | HIn] & Hz); [congruence|].
        assert (H : Returns ys = Throws TypeError) by (apply IH; eauto).
        discriminate.
      * rewrite (error_unique e'). split; [|reflexivity].
        intros _. rewrite (error_unique e') in IH.
        destruct (proj1 IH eq_refl) as (z & HIn & Hz). exists z. split; [now right | assumption].
    + rewrite (error_unique e). split; [|reflexivity].
      intros _. exists x. split; [now left | now rewrite Hx, (error_unique e)].
Qed.

(** An exception inside is an exception of the whole: a raw mapping, a
    real object validator and a real union validator throw exactly when
    [normalize] throws on one of the field values, resp. members, and
    then no descriptor is returned for the rest either. *)
Theorem normalize_throws_with_its_parts :
  (forall ps,
      isCodegenDescriptor (JObj ps) = false ->
      isConvexValidator (JObj ps) = false ->
      (normalize (JObj ps) = Throws TypeError <->
       exists x, In x (map snd ps) /\ normalize x = Throws TypeError)) /\
  (forall v fps,
      isConvexValidator v = true ->
      is_str (get v "kind") "object" = true ->
      get v "fields" = JObj fps ->
      (normalize v = Throws TypeError <->
       exists x, In x (map snd fps) /\ normalize x = Throws TypeError)) /\
  (forall v ms,
      isConvexValidator v = true ->
      is_str (get v "kind") "union" = true ->
      get v "members" = JArr ms ->
      (normalize v = Throws TypeError <->
       exists m, In m ms /\ normalize m = Throws TypeError)).
Proof.
  split; [|split].
  - intros ps Hd Hv. rewrite (normalize_raw ps Hd Hv).
    rewrite <- assign_each_throws with (acc := []).
    destruct (assign_each normalize ps []) as [qs|e]; simpl;
      [split; discriminate | now rewrite (error_unique e)].
  - intros v fps Hv Hk Hf. rewrite (normalize_object_validator v fps Hv Hk Hf).
    rewrite <- assign_each_throws with (acc := []).
    destruct (assign_each normalize fps []) as [qs|e]; simpl;
      [split; discriminate | now rewrite (error_unique e)].
  - intros v ms Hv Hk Hm. rewrite (normalize_union_validator v ms Hv Hk Hm).
    rewrite <- mapM_throws.
    destruct (mapM normalize ms) as [ds|e]; simpl;
      [split; discriminate | now rewrite (error_unique e)].
Qed.

Lemma normalize_throws_with_its_parts_witness :
  normalize (JObj [("a", real_validator "string" [] "required");
                   ("b", real_validator "union" [] "required");
                   ("c", real_validator "null" [] "required")])
  = Throws TypeError.
Proof.
  destruct normalize_throws_with_its_parts as (Hraw & _ & _).
  apply Hraw; try reflexivity.
  exists (real_validator "union" [] "required"). split.
  - right. left. reflexivity.
  - reflexivity.
Defined.

(** A real object validator whose [fields] is missing (or anything else
    falsy) normalizes to the object descriptor without properties,
    inside the wrapper when flagged. *)
Theorem object_validator_without_fields (v : JsVal) :
  isConvexValidator v = true ->
  is_str (get v "kind") "object" = true ->
  truthy (get v "fields") = false ->
  normalize v = Returns (wrap_if_optional v (V.object [])).
Proof.
  intros Hv Hk Hf. rewrite (normalize_validator v Hv).
  unfold normalizeValidator, normalizeValidator_inner, wrap_if_optional.
  apply is_str_true in Hk. rewrite Hk, Hf. simpl.
  now destruct (is_str (get v "isOptional") "optional").
Qed.

Lemma object_validator_without_fields_witness :
  normalize (real_validator "object" [] "required") = Returns (V.object []) /\
  normalize (real_validator "object" [("fields", JNull)] "optional")
  = Returns (V.optional (V.object [])).
Proof.
  split.
  - apply (object_validator_without_fields (real_validator "object" [] "required"));
      reflexivity.
  - apply (object_validator_without_fields
             (real_validator "object" [("fields", JNull)] "optional"));
      reflexivity.
Defined.




Lemma without_proto_all (ps : Props) :
  no_proto_key (keys ps) = true -> without_proto ps = ps.
Proof.
  induction ps as [|[k x] ps IH]; simpl; [reflexivity|].
  rewrite andb_true_iff. intros [Hk Hrest].
  apply negb_true_iff in Hk. rewrite Hk. simpl. now rewrite IH.
Qed.

Section AssignEachProto.

Variable self : JsVal -> Outcome JsVal.



End AssignEachProto.



(* --------------------------------------------------------------------- *)
(** *** The real library against the mock *)

Section ValidatorInduction.

Variable P : Validator -> Prop.
Hypothesis HString : P TString.
Hypothesis HNumber : P TNumber.
Hypothesis HBoolean : P TBoolean.
Hypothesis HInt64 : P TInt64.
Hypothesis HFloat64 : P TFloat64.
Hypothesis HNull : P TNull.
Hypothesis HAny : P TAny.
Hypothesis HBytes : P TBytes.
Hypothesis HId : forall tableName, P (TId tableName).
Hypothesis HLiteral : forall value, P (TLiteral value).
Hypothesis HObject :
  forall fields, Forall (fun f => P (snd f)) fields -> P (TObject fields).
Hypothesis HArray : forall element, P element -> P (TArray element).
Hypothesis HUnion : forall members, Forall P members -> P (TUnion members).
Hypothesis HRecord : forall k v, P k -> P v -> P (TRecord k v).
Hypothesis HOptional : forall inner, P inner -> P (TOptional inner).

Fixpoint Validator_nested_ind (t : Validator) : P t :=
  match t with
  | TString => HString
  | TNumber => HNumber
  | TBoolean => HBoolean
  | TInt64 => HInt64
  | TFloat64 => HFloat64
  | TNull => HNull
  | TAny => HAny
  | TBytes => HBytes
  | TId tableName => HId tableName
  | TLiteral value => HLiteral value
  | TObject fields =>
      HObject fields
        ((fix each (fs : list (string * Validator)) : Forall (fun f => P (snd f)) fs :=
            match fs with
            | [] => Forall_nil _
            | f :: rest => Forall_cons f (Validator_nested_ind (snd f)) (each rest)
            end) fields)
  | TArray element => HArray element (Validator_nested_ind element)
  | TUnion members =>
      HUnion members
        ((fix each (ms : list Validator) : Forall P ms :=
            match ms with
            | [] => Forall_nil _
            | m :: rest => Forall_cons m (Validator_nested_ind m) (each rest)
            end) members)
  | TRecord k v => HRecord k v (Validator_nested_ind k) (Validator_nested_ind v)
  | TOptional inner => HOptional inner (Validator_nested_ind inner)
  end.

End ValidatorInduction.

Lemma normalize_array_validator (v : JsVal) :
  isConvexValidator v = true ->
  is_str (get v "kind") "array" = true ->
  normalize v =
  (elements <- normalize (get v "element") ;;
   Returns (wrap_if_optional v (V.array elements))).
Proof.
  intros Hv Hk. rewrite (normalize_validator v Hv).
  unfold normalizeValidator, normalizeValidator_inner, wrap_if_optional.
  apply is_str_true in Hk. rewrite Hk. simpl.
  destruct (normalize (get v "element")); simpl; [|reflexivity].
  now destruct (is_str (get v "isOptional") "optional").
Qed.

Lemma normalize_record_validator (v : JsVal) :
  isConvexValidator v = true ->
  is_str (get v "kind") "record" = true ->
  normalize v =
  (keyType <- normalize (get v "key") ;;
   valueType <- normalize (get v "value") ;;
   Returns (wrap_if_optional v (V.record keyType valueType))).
Proof.
  intros Hv Hk. rewrite (normalize_validator v Hv).
  unfold normalizeValidator, normalizeValidator_inner, wrap_if_optional.
  apply is_str_true in Hk. rewrite Hk. simpl.
  destruct (normalize (get v "key")); simpl; [|reflexivity].
  destruct (normalize (get v "value")); simpl; [|reflexivity].
  now destruct (is_str (get v "isOptional") "optional").
Qed.

(** [asOptional] on a validator that carries its flag: one wrapper
    around what the validator normalizes to. *)
Lemma normalize_as_optional (ps : Props) (flag : JsVal) :
  isConvexValidator (JObj ps) = true ->
  lookup "isOptional" ps = Some flag ->
  is_str flag "optional" = false ->
  normalize (as_optional (JObj ps)) =
  (inner <- normalize (JObj ps) ;; Returns (V.optional inner)).
Proof.
  intros Hv Hflag Hreq.
  assert (Hget : forall k, String.eqb k "isOptional" = false ->
                           get (as_optional (JObj ps)) k = get (JObj ps) k).
  { intros k Hk. unfold as_optional, get.
    now rewrite lookup_replace_own, String.eqb_sym, Hk. }
  assert (Hv' : isConvexValidator (as_optional (JObj ps)) = true).
  { unfold isConvexValidator in *. now rewrite Hget. }
  rewrite (normalize_validator _ Hv'), (normalize_validator _ Hv).
  unfold normalizeValidator.
  rewrite (normalizeValidator_inner_reads normalize (JObj ps) _ Hget).
  assert (Hopt : get (as_optional (JObj ps)) "isOptional" = JStr "optional").
  { unfold as_optional, get. now rewrite lookup_replace_own, String.eqb_refl, Hflag. }
  assert (Hreq' : is_str (get (JObj ps) "isOptional") "optional" = false).
  { unfold get. now rewrite Hflag. }
  rewrite Hopt, Hreq'. simpl.
  now destruct (normalizeValidator_inner normalize (JObj ps)).
Qed.

Lemma real_carries_flag (t : Validator) :
  is_optional t = false ->
  exists ps, real t = JObj ps /\
             isConvexValidator (JObj ps) = true /\
             lookup "isOptional" ps = Some (JStr "required").
Proof.
  destruct t; try discriminate; intros _; eexists; repeat split.
Qed.

Lemma fields_from_map (fields : list (string * Validator)) :
  Forall (fun f => plain (snd f) = true ->
                   normalize (real (snd f)) = Returns (mock (snd f))) fields ->
  forallb (fun f => plain (snd f)) fields = true ->
  fields_from normalize
    (map (fun f => (fst f, real (snd f))) fields)
    (map (fun f => (fst f, mock (snd f))) fields).
Proof.
  intros IH Hplain. split.
  - unfold keys. rewrite !map_map. reflexivity.
  - induction IH as [|f fields Hf _ IHfields]; simpl; [constructor|].
    simpl in Hplain. apply andb_true_iff in Hplain. destruct Hplain as [Hp Hrest].
    constructor; auto.
Qed.

(** The two libraries lead to the same descriptors.  For a validator
    expression [t] that is [plain], what the real library builds
    normalizes to what the mock [v] builds, and nothing is thrown. *)
Theorem real_normalizes_to_mock (t : Validator) :
  plain t = true -> normalize (real t) = Returns (mock t).
Proof.
  induction t using Validator_nested_ind; intros Hplain;
    try reflexivity; try discriminate.
  - (* object *)
    simpl in Hplain. rewrite !andb_true_iff in Hplain.
    destruct Hplain as [[Hord Hproto] Hfields].
    pose proof (fields_from_map fields H Hfields) as HF.
    rewrite (normalize_object_validator (real (TObject fields))
               (map (fun f => (fst f, real (snd f))) fields)) by reflexivity.
    assert (Hkeys : keys (map (fun f => (fst f, real (snd f))) fields) = map fst fields)
      by (unfold keys; now rewrite map_map).
    apply (assign_each_fields normalize) in HF; [| now rewrite Hkeys | now rewrite Hkeys].
    rewrite HF. reflexivity.
  - (* array *)
    rewrite (normalize_array_validator (real (TArray t))) by reflexivity.
    change (get (real (TArray t)) "element") with (real t).
    rewrite (IHt Hplain). reflexivity.
  - (* union *)
    simpl in Hplain.
    rewrite (normalize_union_validator (real (TUnion members)) (map real members))
      by reflexivity.
    assert (HM : mapM normalize (map real members) = Returns (map mock members)).
    { apply mapM_returns.
      induction H as [|m members Hm _ IHmembers]; simpl; [constructor|].
      simpl in Hplain. apply andb_true_iff in Hplain. destruct Hplain as [Hp Hrest].
      constructor; auto. }
    rewrite HM. reflexivity.
  - (* record *)
    simpl in Hplain. apply andb_true_iff in Hplain. destruct Hplain as [Hk Hv].
    rewrite (normalize_record_validator (real (TRecord t1 t2))) by reflexivity.
    change (get (real (TRecord t1 t2)) "key") with (real t1).
    change (get (real (TRecord t1 t2)) "value") with (real t2).
    rewrite (IHt1 Hk), (IHt2 Hv). reflexivity.
  - (* optional *)
    simpl in Hplain. apply andb_true_iff in Hplain. destruct Hplain as [Hno Hp].
    apply negb_true_iff in Hno.
    destruct (real_carries_flag t Hno) as (ps & Hps & Hv & Hflag).
    simpl. rewrite Hps.
    rewrite (normalize_as_optional ps (JStr "required") Hv Hflag eq_refl).
    rewrite <- Hps, (IHt Hp). reflexivity.
Qed.

Lemma real_normalizes_to_mock_witness :
  let t :=
    TObject [("gameId", TId "games");
             ("result",
              TUnion [TObject [("type", TLiteral (JStr "Win")); ("bonus", TNumber)];
                      TObject [("type", TLiteral (JStr "Draw"))]]);
             ("note", TOptional (TArray TString))] in
  normalize (real t) = Returns (mock t).
Proof. intros t. apply (real_normalizes_to_mock t). reflexivity. Defined.

(* ===================================================================== *)
(** ** Further properties of the extraction loop *)
(* ===================================================================== *)

Lemma extract_export_skips (fileName exportName : string) (value : JsVal)
    (functions : list FunctionRecord.t) :
  is_registered value = false ->
  extract_export fileName exportName value functions = Returns functions.
Proof.
  unfold is_registered, extract_export. intros H. now rewrite H.
Qed.

Lemma extract_export_appends (fileName exportName : string) (value : JsVal)
    (functions functions' : list FunctionRecord.t) :
  is_registered value = true ->
  extract_export fileName exportName value functions = Returns functions' ->
  exists r, functions' = functions ++ [r] /\
            FunctionRecord.name r = exportName /\
            FunctionRecord.type r = get value "__type" /\
            FunctionRecord.file_name r = fileName.
Proof.
  unfold is_registered, extract_export. intros H. rewrite H.
  match goal with |- bind ?m _ = _ -> _ => destruct m as [params|e] end;
    simpl; [|discriminate].
  match goal with |- bind ?m _ = _ -> _ => destruct m as [returnType|e] end;
    simpl; [|discriminate].
  intros [= <-]. eexists. repeat split.
Qed.

Lemma extract_exports_file_names (fileName : string) (es : Props)
    (functions functions' : list FunctionRecord.t) :
  extract_exports fileName es functions = Returns functions' ->
  exists records,
    functions' = functions ++ records /\
    Forall (fun r => FunctionRecord.file_name r = fileName) records.
Proof.
  revert functions. induction es as [|[exportName value] es IH]; simpl;
    intros functions H.
  - injection H as <-. exists []. now rewrite app_nil_r.
  - destruct (extract_export fileName exportName value functions) as [fs1|e] eqn:H1;
      simpl in H; [|discriminate].
    destruct (IH _ H) as (records & -> & Hfiles).
    destruct (is_registered value) eqn:Hreg.
    + destruct (extract_export_appends _ _ _ _ _ Hreg H1) as (r & -> & _ & _ & Hf).
      exists (r :: records). rewrite <- app_assoc. simpl.
      split; [reflexivity | now constructor].
    + rewrite (extract_export_skips _ _ _ _ Hreg) in H1. injection H1 as <-.
      exists records. auto.
Qed.

(** One record per registered export, in the order of the exports, and
    none for any other export: when the loop over a module returns, the
    list has grown by records whose names are the names of the exports
    that carry [__type], each with the file name of the module, and the
    records that were there are untouched. *)
Theorem extract_exports_registered_only (fileName : string) (es : Props)
    (functions functions' : list FunctionRecord.t) :
  extract_exports fileName es functions = Returns functions' ->
  exists records,
    functions' = functions ++ records /\
    map FunctionRecord.name records
    = keys (filter (fun e => is_registered (snd e)) es) /\
    Forall (fun r => FunctionRecord.file_name r = fileName) records.
Proof.
  revert functions. induction es as [|[exportName value] es IH]; simpl;
    intros functions H.
  - injection H as <-. exists []. now rewrite app_nil_r.
  - destruct (extract_export fileName exportName value functions) as [fs1|e] eqn:H1;
      simpl in H; [|discriminate].
    destruct (IH _ H) as (records & -> & Hnames & Hfiles).
    destruct (is_registered value) eqn:Hreg.
    + destruct (extract_export_appends _ _ _ _ _ Hreg H1) as (r & -> & Hn & _ & Hf).
      exists (r :: records). rewrite <- app_assoc. simpl.
      repeat split; [now rewrite Hn, Hnames | now constructor].
    + rewrite (extract_export_skips _ _ _ _ Hreg) in H1. injection H1 as <-.
      exists records. auto.
Qed.

Lemma extract_exports_registered_only_witness :
  exists records,
    [{| FunctionRecord.name := "getGame";
        FunctionRecord.type := JStr "query";
        FunctionRecord.params := [];
        FunctionRecord.return_type := JNull;
        FunctionRecord.file_name := "games" |};
     {| FunctionRecord.name := "winGame";
        FunctionRecord.type := JStr "mutation";
        FunctionRecord.params := [];
        FunctionRecord.return_type := JNull;
        FunctionRecord.file_name := "games" |}] = [] ++ records /\
    map FunctionRecord.name records = ["getGame"; "winGame"] /\
    Forall (fun r => FunctionRecord.file_name r = "games") records.
Proof.
  exact (extract_exports_registered_only "games"
           [("MAX", JNum 3);
            ("getGame", query (JObj [("handler", JFun 0)]));
            ("helper", JFun 1);
            ("winGame", mutation (JObj [("handler", JFun 2)]))] [] _ eq_refl).
Defined.

Lemma extract_export_registered (fileName exportName kind : string)
    (config : JsVal) (functions : list FunctionRecord.t) :
  extract_export fileName exportName (makeFunctionRegistrar kind config) functions
  = (params <-
       (let argsRaw := get config "args" in
        if not_undefined argsRaw && not_null argsRaw then
          normalized <- normalize argsRaw ;;
          if is_str (get normalized "type") "object"
             && truthy (get normalized "properties")
             && String.eqb (typeof (get normalized "properties")) "object"
          then es <- entries (get normalized "properties") ;;
               Returns (map param_of es)
          else Returns []
        else Returns []) ;;
     returnType <-
       (let returnsRaw := get config "returns" in
        if not_undefined returnsRaw && not_null returnsRaw
        then normalize returnsRaw
        else Returns JNull) ;;
     Returns (functions ++
              [{| FunctionRecord.name := exportName;
                  FunctionRecord.type := JStr kind;
                  FunctionRecord.params := params;
                  FunctionRecord.return_type := returnType;
                  FunctionRecord.file_name := fileName |}])).
Proof.
  unfold extract_export, makeFunctionRegistrar.
  cbn [not_null typeof has_property lookup String.eqb Ascii.eqb Bool.eqb andb].
  change (get (JObj [("__type", JStr kind); ("__config", config)]) "__config")
    with config.
  change (get (JObj [("__type", JStr kind); ("__config", config)]) "__type")
    with (JStr kind).
  now rewrite !get_nullish_or_empty.
Qed.

Lemma returns_become_bind (config r : JsVal) :
  returns_become config r ->
  (let returnsRaw := get config "returns" in
   if not_undefined returnsRaw && not_null returnsRaw
   then normalize returnsRaw
   else Returns JNull) = Returns r.
Proof.
  intros [[[H | H] ->] | [Hpresent Hr]]; simpl.
  - now rewrite H.
  - now rewrite H.
  - now rewrite Hpresent.
Qed.

(** The parameters of a registered function are the fields of its
    normalized [args]: when [args] normalizes to the object descriptor
    with the properties [qs] (whichever shape [args] came in), the record
    has one parameter per field, in the order of the fields, named as
    the field and typed by its descriptor. *)
Theorem params_are_normalized_args (fileName exportName kind : string)
    (config r : JsVal) (qs : Props) (functions : list FunctionRecord.t) :
  normalize (get config "args") = Returns (V.object qs) ->
  returns_become config r ->
  extract_export fileName exportName (makeFunctionRegistrar kind config) functions
  = Returns (functions ++
             [{| FunctionRecord.name := exportName;
                 FunctionRecord.type := JStr kind;
                 FunctionRecord.params := map param_of qs;
                 FunctionRecord.return_type := r;
                 FunctionRecord.file_name := fileName |}]) /\
  map Param.name (map param_of qs) = keys qs /\
  map Param.data_type (map param_of qs) = map snd qs.
Proof.
  intros Hargs Hret. split; [|split].
  - rewrite extract_export_registered, (returns_become_bind config r Hret).
    cbv zeta. rewrite Hargs.
    destruct (get config "args") eqn:Ha; try reflexivity; discriminate Hargs.
  - unfold keys. now rewrite map_map.
  - now rewrite map_map.
Qed.

Lemma params_are_normalized_args_witness :
  extract_export "games" "updateGameStatus"
    (mutation
       (JObj [("args",
               JObj [("gameId", real (TId "games"));
                     ("result",
                      real (TUnion [TObject [("type", TLiteral (JStr "Win"));
                                             ("bonus", TNumber)];
                                    TObject [("type", TLiteral (JStr "Draw"))]]))]);
              ("returns", real TNull);
              ("handler", JFun 0)])) []
  = Returns
      [{| FunctionRecord.name := "updateGameStatus";
          FunctionRecord.type := JStr "mutation";
          FunctionRecord.params :=
            [{| Param.name := "gameId"; Param.data_type := V.id "games" |};
             {| Param.name := "result";
                Param.data_type :=
                  V.union [V.object [("type", V.literal (JStr "Win"));
                                     ("bonus", V.number)];
                           V.object [("type", V.literal (JStr "Draw"))]] |}];
          FunctionRecord.return_type := V.null;
          FunctionRecord.file_name := "games" |}].
Proof.
  apply (params_are_normalized_args "games" "updateGameStatus" "mutation" _ V.null
           [("gameId", V.id "games");
            ("result",
             V.union [V.object [("type", V.literal (JStr "Win")); ("bonus", V.number)];
                      V.object [("type", V.literal (JStr "Draw"))]])] []).
  - reflexivity.
  - right. split; reflexivity.
Defined.

Lemma normalizeValidator_inner_keeps_kind
    (self : JsVal -> Outcome JsVal) (v d : JsVal) :
  normalizeValidator_inner self v = Returns d ->
  is_str (get v "kind") "object" = false ->
  is_str (get d "type") "object" = false.
Proof.
  unfold normalizeValidator_inner. intros H Hk. rewrite Hk in H.
  destruct (is_str (get v "kind") "string" || is_str (get v "kind") "boolean"
            || is_str (get v "kind") "int64" || is_str (get v "kind") "null"
            || is_str (get v "kind") "any" || is_str (get v "kind") "bytes") eqn:Hprim.
  { injection H as <-.
    rewrite !orb_true_iff in Hprim.
    repeat destruct Hprim as [Hprim | Hprim];
      apply is_str_true in Hprim; rewrite Hprim; reflexivity. }
  destruct (is_str (get v "kind") "float64"); [now injection H as <-|].
  destruct (is_str (get v "kind") "id"); [now injection H as <-|].
  destruct (is_str (get v "kind") "literal"); [now injection H as <-|].
  destruct (is_str (get v "kind") "array").
  { destruct (self (get v "element")); simpl in H; [|discriminate].
    now injection H as <-. }
  destruct (is_str (get v "kind") "union").
  { destruct (get v "members") as [| | | | | | | |members|]; try discriminate.
    destruct (mapM self members); simpl in H; [|discriminate].
    now injection H as <-. }
  destruct (is_str (get v "kind") "record").
  { destruct (self (get v "key")); simpl in H; [|discriminate].
    destruct (self (get v "value")); simpl in H; [|discriminate].
    now injection H as <-. }
  now injection H as <-.
Qed.

(** Only an object contributes parameters.  When [args] is a real
    validator of another kind, or an object validator flagged optional,
    it normalizes to a descriptor that is no object descriptor, and the
    record is appended with no parameter at all. *)
Theorem args_not_object_no_params (fileName exportName kind : string)
    (config r d : JsVal) (functions : list FunctionRecord.t) :
  isConvexValidator (get config "args") = true ->
  is_str (get (get config "args") "kind") "object" = false \/
  is_str (get (get config "args") "isOptional") "optional" = true ->
  normalize (get config "args") = Returns d ->
  returns_become config r ->
  extract_export fileName exportName (makeFunctionRegistrar kind config) functions
  = Returns (functions ++
             [{| FunctionRecord.name := exportName;
                 FunctionRecord.type := JStr kind;
                 FunctionRecord.params := [];
                 FunctionRecord.return_type := r;
                 FunctionRecord.file_name := fileName |}]).
Proof.
  intros Hv Hshape Hd Hret.
  rewrite extract_export_registered, (returns_become_bind config r Hret).
  cbv zeta. rewrite Hd.
  assert (Htype : is_str (get d "type") "object" = false).
  { rewrite (normalize_validator _ Hv) in Hd. unfold normalizeValidator in Hd.
    destruct (normalizeValidator_inner normalize (get config "args")) as [inner|e]
      eqn:Hinner; simpl in Hd; [|discriminate].
    destruct (is_str (get (get config "args") "isOptional") "optional");
      injection Hd as <-; [reflexivity|].
    destruct Hshape as [Hk | Hopt]; [|discriminate].
    eapply normalizeValidator_inner_keeps_kind; eassumption. }
  destruct (isConvexValidator_object _ Hv) as [ps ->].
  simpl. now rewrite Htype.
Qed.

Lemma args_not_object_no_params_witness :
  extract_export "games" "byName"
    (query (JObj [("args", as_optional (real (TObject [("name", TString)])));
                  ("handler", JFun 0)])) []
  = Returns [{| FunctionRecord.name := "byName";
                FunctionRecord.type := JStr "query";
                FunctionRecord.params := [];
                FunctionRecord.return_type := JNull;
                FunctionRecord.file_name := "games" |}].
Proof.
  apply (args_not_object_no_params "games" "byName" "query" _ JNull
           (V.optional (V.object [("name", V.string)])) []).
  - reflexivity.
  - right. reflexivity.
  - reflexivity.
  - left. split; [left|]; reflexivity.
Defined.

Lemma normalize_throws_present (x : JsVal) (e : JsError) :
  normalize x = Throws e -> not_undefined x && not_null x = true.
Proof. destruct x; try reflexivity; discriminate. Qed.

Lemma extract_export_throws (fileName exportName : string) (value : JsVal)
    (functions : list FunctionRecord.t) :
  export_throws value ->
  extract_export fileName exportName value functions = Throws TypeError.
Proof.
  intros [Hreg Hthrows]. unfold is_registered in Hreg.
  unfold extract_export. rewrite Hreg.
  destruct Hthrows as [Ha | Hr].
  - rewrite (normalize_throws_present _ _ Ha), Ha. reflexivity.
  - rewrite (normalize_throws_present _ _ Hr), Hr.
    match goal with |- bind ?m _ = _ => destruct m as [params|e] end;
      simpl; [reflexivity | now rewrite (error_unique e)].
Qed.

Lemma extract_exports_throws (fileName exportName : string) (value : JsVal)
    (es : Props) (functions : list FunctionRecord.t) :
  In (exportName, value) es ->
  export_throws value ->
  extract_exports fileName es functions = Throws TypeError.
Proof.
  intros HIn Hthrows. revert functions.
  induction es as [|[n x] es IH]; simpl; intros functions; [contradiction|].
  destruct HIn as [[= -> ->] | HIn].
  - now rewrite extract_export_throws.
  - destruct (extract_export fileName n x functions) as [fs|e]; simpl;
      [now apply IH | now rewrite (error_unique e)].
Qed.

(** Extraction is all or nothing.  When one of the modules fails to load,
    or one of them exports a registered function whose [args] or
    [returns] makes [normalize] throw, the loop over the modules ends by
    that exception, and the records gathered so far are not returned. *)
Theorem extract_modules_all_or_nothing
    (import : string -> Outcome JsVal) (functionPaths : list string)
    (fp : string) (functions : list FunctionRecord.t) :
  In fp functionPaths ->
  (exists e, import fp = Throws e) \/
  (exists mod_ es exportName value,
      import fp = Returns mod_ /\ entries mod_ = Returns es /\
      In (exportName, value) es /\ export_throws value) ->
  extract_modules import functionPaths functions = Throws TypeError.
Proof.
  intros HIn Hfail. revert functions.
  induction functionPaths as [|fp0 rest IH]; simpl; intros functions;
    [contradiction|].
  destruct (import fp0) as [m|e] eqn:Himp; simpl; [|now rewrite (error_unique e)].
  destruct (entries m) as [es0|e] eqn:Hes; simpl; [|now rewrite (error_unique e)].
  destruct (extract_exports (fileName_of fp0) es0 functions) as [fs|e] eqn:Hex;
    simpl; [|now rewrite (error_unique e)].
  destruct HIn as [-> | HIn]; [|now apply IH].
  exfalso. destruct Hfail as [[e He] | (m' & es & n & value & Hm & Hes' & HinE & Hthrows)].
  - congruence.
  - rewrite Himp in Hm. injection Hm as <-. rewrite Hes in Hes'. injection Hes' as <-.
    rewrite (extract_exports_throws _ n value es0 functions HinE Hthrows) in Hex.
    discriminate.
Qed.

Lemma extract_modules_all_or_nothing_witness :
  extract_modules
    (fun fp => if String.eqb fp "convex/games.ts"
               then Returns (JObj [("winGame", mutation (JObj [("handler", JFun 0)]))])
               else if String.eqb fp "convex/players.ts"
               then Returns (JObj [("getByRank",
                                    query (JObj [("args",
                                                  JObj [("rank", real_validator "union" [] "required")])]))])
               else Throws TypeError)
    ["convex/games.ts"; "convex/players.ts"] []
  = Throws TypeError.
Proof.
  apply (extract_modules_all_or_nothing _ _ "convex/players.ts").
  - right. left. reflexivity.
  - right. do 4 eexists. split; [reflexivity|]. split; [reflexivity|].
    split; [left; reflexivity|]. split; [reflexivity | left; reflexivity].
Defined.

(** The loop over the modules only adds to the list: when it returns,
    the records it was given are still there, in front, and every record
    behind them carries the file name of one of the modules. *)
Theorem extract_modules_only_adds
    (import : string -> Outcome JsVal) (functionPaths : list string)
    (functions functions' : list FunctionRecord.t) :
  extract_modules import functionPaths functions = Returns functions' ->
  exists records,
    functions' = functions ++ records /\
    Forall (fun r => In (FunctionRecord.file_name r) (map fileName_of functionPaths))
           records.
Proof.
  revert functions. induction functionPaths as [|fp rest IH]; simpl;
    intros functions H.
  - injection H as <-. exists []. now rewrite app_nil_r.
  - destruct (import fp) as [m|e]; simpl in H; [|discriminate].
    destruct (entries m) as [es|e]; simpl in H; [|discriminate].
    destruct (extract_exports (fileName_of fp) es functions) as [fs|e] eqn:Hex;
      simpl in H; [|discriminate].
    destruct (extract_exports_file_names _ _ _ _ Hex) as (r1 & -> & Hf1).
    destruct (IH _ H) as (r2 & -> & Hf2).
    exists (r1 ++ r2). rewrite app_assoc. split; [reflexivity|].
    apply Forall_app. split.
    + eapply Forall_impl; [|exact Hf1]. intros r ->. now left.
    + eapply Forall_impl; [|exact Hf2]. intros r Hr. now right.
Qed.

Lemma extract_modules_only_adds_witness :
  exists records,
    [{| FunctionRecord.name := "old"; FunctionRecord.type := JStr "query";
        FunctionRecord.params := []; FunctionRecord.return_type := JNull;
        FunctionRecord.file_name := "earlier" |};
     {| FunctionRecord.name := "winGame"; FunctionRecord.type := JStr "mutation";
        FunctionRecord.params := []; FunctionRecord.return_type := JNull;
        FunctionRecord.file_name := "games" |}]
    = [{| FunctionRecord.name := "old"; FunctionRecord.type := JStr "query";
          FunctionRecord.params := []; FunctionRecord.return_type := JNull;
          FunctionRecord.file_name := "earlier" |}] ++ records /\
    Forall (fun r => In (FunctionRecord.file_name r) ["games"]) records.
Proof.
  exact (extract_modules_only_adds
           (fun _ => Returns (JObj [("winGame", mutation (JObj []))]))
           ["convex/games.ts"]
           [{| FunctionRecord.name := "old"; FunctionRecord.type := JStr "query";
               FunctionRecord.params := []; FunctionRecord.return_type := JNull;
               FunctionRecord.file_name := "earlier" |}] _ eq_refl).
Defined.

Lemma bind_assoc {A B C : Type} (m : Outcome A) (f : A -> Outcome B)
    (g : B -> Outcome C) :
  bind (bind m f) g = bind m (fun a => bind (f a) g).
Proof. now destruct m. Qed.

(** Modules are handled one after the other, each starting from the
    records of those before it: extracting a list of modules is
    extracting its first part and then the rest, and an exception in the
    first part keeps the rest from being loaded at all. *)
Theorem extract_modules_in_sequence
    (import : string -> Outcome JsVal) (paths1 paths2 : list string)
    (functions : list FunctionRecord.t) :
  extract_modules import (paths1 ++ paths2) functions
  = (functions1 <- extract_modules import paths1 functions ;;
     extract_modules import paths2 functions1).
Proof.
  revert functions. induction paths1 as [|fp rest IH]; simpl; intros functions;
    [reflexivity|].
  rewrite !bind_assoc. apply bind_ext. intros m _.
  rewrite !bind_assoc. apply bind_ext. intros es _.
  rewrite !bind_assoc. apply bind_ext. intros fs _. apply IH.
Qed.

Lemma no_slash_parts (s : string) :
  Forall (fun part => no_slash part = true) (split_slash s).
Proof.
  induction s as [|c s IH]; simpl; [repeat constructor|].
  destruct (Ascii.eqb c "/") eqn:Hc; [now constructor|].
  destruct (split_slash s) as [|part parts];
    [constructor; [simpl; now rewrite Hc | constructor]|].
  inversion IH; subst. constructor; [|assumption].
  simpl. now rewrite Hc.
Qed.

Lemma last_In {A : Type} (l : list A) (d : A) : l <> [] -> In (last l d) l.
Proof.
  induction l as [|a l IH]; [congruence|]. intros _.
  destruct l as [|b l]; [now left|].
  right. apply IH. discriminate.
Qed.

Lemma no_slash_strip_ts (s : string) :
  no_slash s = true -> no_slash (strip_ts s) = true.
Proof.
  induction s as [|c s IH]; [reflexivity|].
  cbn [strip_ts]. destruct (String.eqb (String c s) ".ts"); [reflexivity|].
  simpl. rewrite !andb_true_iff. intros [Hc Hs]. auto.
Qed.

(** A file name never holds a slash, whatever the path of the module. *)
Theorem fileName_has_no_slash (fp : string) :
  no_slash (fileName_of fp) = true.
Proof.
  unfold fileName_of. apply no_slash_strip_ts.
  pose proof (no_slash_parts fp) as Hparts. rewrite Forall_forall in Hparts.
  apply Hparts. apply last_In.
  destruct (split_slash_cons fp) as (part & parts & ->). discriminate.
Qed.

(* --------------------------------------------------------------------- *)
(** *** The loop for mock validators *)

Lemma entries_returns (v : JsVal) :
  not_undefined v && not_null v = true -> exists es, entries v = Returns es.
Proof. destruct v; try discriminate; simpl; eauto. Qed.

Lemma nullish_or_present (a : JsVal) :
  not_undefined (nullish_or a (JObj [])) && not_null (nullish_or a (JObj [])) = true.
Proof. now destruct a. Qed.

Lemma truthy_present (v : JsVal) :
  truthy v = true -> not_undefined v && not_null v = true.
Proof. now destruct v. Qed.

(** The loop for mock validators never throws: [args] defaults to an
    empty object before its entries are listed, and nothing else in the
    body can fail.  An export is either skipped or answered by one more
    record. *)
Theorem mock_extract_export_returns (fileName exportName : string)
    (value : JsVal) (functions : list FunctionRecord.t) :
  exists functions',
    MockExtractor.extract_export fileName exportName value functions
    = Returns functions' /\
    (is_registered value = false -> functions' = functions) /\
    (is_registered value = true ->
     exists r, functions' = functions ++ [r] /\
               FunctionRecord.name r = exportName /\
               FunctionRecord.file_name r = fileName).
Proof.
  unfold MockExtractor.extract_export, is_registered.
  destruct (not_null value && String.eqb (typeof value) "object"
            && has_property "__type" value).
  - set (args := nullish_or _ (JObj [])).
    assert (Hes : exists es,
               entries (if is_str (get args "type") "object"
                           && truthy (get args "properties")
                        then get args "properties" else args) = Returns es).
    { destruct (is_str (get args "type") "object") ; simpl.
      - destruct (truthy (get args "properties")) eqn:Ht.
        + now apply entries_returns, truthy_present.
        + apply entries_returns, nullish_or_present.
      - apply entries_returns, nullish_or_present. }
    destruct Hes as [es ->]. simpl. eexists. split; [reflexivity|].
    split; [discriminate|]. intros _. eexists. repeat split.
  - exists functions. split; [reflexivity|]. split; [reflexivity | discriminate].
Qed.

Lemma mock_args_not_tagged_object (fields : Props) :
  Forall (fun p => isCodegenDescriptor (snd p) = true) fields ->
  is_str (get (JObj fields) "type") "object" = false.
Proof.
  intros H. destruct (descriptor_fields_read fields "type" H) as [-> | Hd];
    [reflexivity|].
  destruct (descriptor_is_object _ Hd) as [ps ->]. reflexivity.
Qed.

Lemma normalize_descriptor_fields (fields : Props) :
  Forall (fun p => isCodegenDescriptor (snd p) = true) fields ->
  own_order (keys fields) = true ->
  no_proto_key (keys fields) = true ->
  normalize (JObj fields) = Returns (V.object fields).
Proof.
  intros Hdesc Hord Hproto.
  destruct (descriptor_fields_raw fields Hdesc) as [Hnd Hnv].
  rewrite (normalize_raw fields Hnd Hnv).
  pose proof (fields_from_descriptors fields Hdesc) as HF.
  apply (assign_each_fields normalize fields fields Hord Hproto) in HF.
  now rewrite HF.
Qed.

(** On what the mock [v] produces the two versions of the loop agree:
    for a registrar configuration whose [args] is absent, an object
    descriptor or a raw mapping to descriptors, and whose [returns] is
    absent or a descriptor, the loop that normalizes appends the very
    record the loop for mock validators appends. *)
Theorem extract_export_versions_agree (fileName exportName kind : string)
    (config : JsVal) (functions : list FunctionRecord.t) :
  mock_args (get config "args") ->
  mock_returns (get config "returns") ->
  extract_export fileName exportName (makeFunctionRegistrar kind config) functions
  = MockExtractor.extract_export fileName exportName
      (makeFunctionRegistrar kind config) functions.
Proof.
  intros Hargs Hret.
  rewrite extract_export_registered.
  unfold MockExtractor.extract_export, makeFunctionRegistrar.
  cbn [not_null typeof has_property lookup String.eqb Ascii.eqb Bool.eqb andb].
  change (get (JObj [("__type", JStr kind); ("__config", config)]) "__config")
    with config.
  change (get (JObj [("__type", JStr kind); ("__config", config)]) "__type")
    with (JStr kind).
  rewrite !get_nullish_or_empty. cbv zeta.
  assert (Hr : (if not_undefined (get config "returns") && not_null (get config "returns")
                then normalize (get config "returns") else Returns JNull)
               = Returns (nullish_or (get config "returns") JNull)).
  { destruct Hret as [-> | [-> | Hd]]; try reflexivity.
    rewrite (normalize_descriptor _ Hd).
    destruct (descriptor_is_object _ Hd) as [ps ->]. reflexivity. }
  rewrite Hr.
  destruct Hargs as [-> | [-> | [[fields ->] | (fields & -> & Hdesc & Hord & Hproto)]]];
    try reflexivity.
  rewrite (normalize_descriptor_fields fields Hdesc Hord Hproto).
  cbn [nullish_or]. rewrite (mock_args_not_tagged_object fields Hdesc).
  reflexivity.
Qed.

Lemma extract_export_versions_agree_witness :
  extract_export "players" "create"
    (mutation (JObj [("args", JObj [("name", V.string);
                                    ("profile", V.object [("bio", V.optional V.string)])]);
                     ("returns", V.id "players")])) []
  = MockExtractor.extract_export "players" "create"
      (mutation (JObj [("args", JObj [("name", V.string);
                                      ("profile", V.object [("bio", V.optional V.string)])]);
                       ("returns", V.id "players")])) [].
Proof.
  apply (extract_export_versions_agree "players" "create" "mutation").
  - right. right. right. eexists. split; [reflexivity|].
    split; [repeat constructor | split; reflexivity].
  - right. right. reflexivity.
Defined.

(* ===================================================================== *)
(** ** Properties of the schema registrar *)
(* ===================================================================== *)

(** [defineSchema] with normalization, table by table.  Whatever
    happens, the tables that were registered before stay as they were,
    in front.  When the call returns, one table was added per entry of
    its argument, in order and under the name of the entry.  When it
    throws, [normalize] threw on the validator of some entry, the tables
    of the entries before that one were added all the same and stay in
    [__schema], and nothing was added for the entry or those after it. *)
Theorem defineSchema_adds_in_order
    (tables : list (string * TableBuilder.t)) (schema schema' : list TableDef.t)
    (outcome : Outcome unit) :
  NormalizingSchema.defineSchema tables schema = (schema', outcome) ->
  exists added,
    schema' = schema ++ added /\
    (outcome = Returns tt -> map TableDef.name added = map fst tables) /\
    (forall e, outcome = Throws e ->
       exists before failing rest,
         tables = before ++ failing :: rest /\
         map TableDef.name added = map fst before /\
         normalize (TableBuilder._validator (snd failing)) = Throws TypeError).
Proof.
  revert schema. induction tables as [|[name table] tables IH]; simpl;
    intros schema H.
  - injection H as <- <-. exists []. rewrite app_nil_r.
    repeat split; discriminate.
  - destruct (normalize (TableBuilder._validator table)) as [normalized|e0] eqn:Hn.
    + match type of H with
      | match entries ?p with _ => _ end = _ =>
          assert (Hes : exists es, entries p = Returns es)
      end.
      { destruct (is_str (get normalized "type") "object"); simpl; [|eauto].
        destruct (truthy (get normalized "properties")) eqn:Ht; [|simpl; eauto].
        now apply entries_returns, truthy_present. }
      destruct Hes as [es Hes]. rewrite Hes in H.
      destruct (IH _ H) as (added & -> & Hret & Hthrow).
      eexists (_ :: added). rewrite <- app_assoc. split; [reflexivity|]. split.
      * intros Ho. simpl. now rewrite (Hret Ho).
      * intros e Ho. destruct (Hthrow e Ho) as (before & failing & rest & -> & Hb & Hf).
        exists ((name, table) :: before), failing, rest.
        repeat split; [simpl; now rewrite Hb | assumption].
    + injection H as <- <-. exists []. rewrite app_nil_r.
      split; [reflexivity|]. split; [discriminate|].
      intros e _. exists [], (name, table), tables.
      repeat split. simpl. now rewrite Hn, (error_unique e0).
Qed.

Lemma defineSchema_adds_in_order_witness :
  exists added,
    fst (NormalizingSchema.defineSchema
           [("games", defineTable (real (TObject [("win_count", TNumber)])));
            ("broken", defineTable (real_validator "union" [] "required"));
            ("players", defineTable (real (TObject [("name", TString)])))] [])
    = [] ++ added /\
    map TableDef.name added = ["games"].
Proof.
  destruct (defineSchema_adds_in_order
              [("games", defineTable (real (TObject [("win_count", TNumber)])));
               ("broken", defineTable (real_validator "union" [] "required"));
               ("players", defineTable (real (TObject [("name", TString)])))]
              [] _ _ eq_refl) as (added & Heq & _ & _).
  exists added. split; [exact Heq|].
  simpl in Heq. rewrite <- Heq. reflexivity.
Defined.

(** [defineSchema] for mock validators never throws, and adds one table
    per entry of its argument, in order and under the name of the entry,
    behind the tables registered before. *)
Theorem mock_defineSchema_adds_in_order
    (tables : list (string * TableBuilder.t)) (schema : list TableDef.t) :
  exists added,
    MockSchema.defineSchema tables schema = (schema ++ added, Returns tt) /\
    map TableDef.name added = map fst tables.
Proof.
  revert schema. induction tables as [|[name table] tables IH]; simpl;
    intros schema.
  - exists []. now rewrite app_nil_r.
  - set (validator := nullish_or (TableBuilder._validator table) (JObj [])).
    match goal with
    | |- exists _, match entries ?p with _ => _ end = _ /\ _ =>
        assert (Hes : exists es, entries p = Returns es)
    end.
    { destruct (is_str (get validator "type") "object"); simpl.
      - destruct (truthy (get validator "properties")) eqn:Ht.
        + now apply entries_returns, truthy_present.
        + apply entries_returns, nullish_or_present.
      - apply entries_returns, nullish_or_present. }
    destruct Hes as [es ->].
    destruct (IH (schema ++ [{| TableDef.name := name;
                                TableDef.columns := map column_of es |}]))
      as (added & -> & Hnames).
    eexists (_ :: added). rewrite <- app_assoc. split; [reflexivity|].
    simpl. now rewrite Hnames.
Qed.

(** The three shapes of a table definition give the same table.  With
    the raw mapping [fields] of descriptors, with the object descriptor
    of these fields and with a real object validator whose fields
    normalize to them, [defineSchema] registers the table with one column
    per field, in order, named as the field and typed by its descriptor;
    [index] and [searchIndex] on the builder change nothing. *)
Theorem defineSchema_three_shapes (name : string) (fields rfields : Props)
    (real_ : JsVal) (args : list JsVal) (schema : list TableDef.t) :
  Forall (fun p => isCodegenDescriptor (snd p) = true) fields ->
  own_order (keys fields) = true ->
  no_proto_key (keys fields) = true ->
  isConvexValidator real_ = true ->
  is_str (get real_ "kind") "object" = true ->
  is_str (get real_ "isOptional") "optional" = false ->
  get real_ "fields" = JObj rfields ->
  fields_from normalize rfields fields ->
  let registered :=
    (schema ++ [{| TableDef.name := name;
                   TableDef.columns := map column_of fields |}], Returns tt) in
  NormalizingSchema.defineSchema [(name, defineTable (JObj fields))] schema
  = registered /\
  NormalizingSchema.defineSchema [(name, defineTable (V.object fields))] schema
  = registered /\
  NormalizingSchema.defineSchema
    [(name, searchIndex (index (defineTable real_) args) args)] schema
  = registered.
Proof.
  intros Hdesc Hord Hproto Hv Hk Hreq Hf Hreal registered.
  assert (Hreal_ : normalize real_ = Returns (V.object fields)).
  { rewrite (normalize_object_validator real_ rfields Hv Hk Hf).
    pose proof Hreal as [Hkeys _].
    assert (HF : assign_each normalize rfields [] = Returns fields).
    { apply assign_each_fields;
        [now rewrite <- Hkeys | now rewrite <- Hkeys | assumption]. }
    rewrite HF. simpl. unfold wrap_if_optional. now rewrite Hreq. }
  unfold registered, searchIndex, index, defineTable.
  split; [|split]; cbn [NormalizingSchema.defineSchema TableBuilder._validator].
  - now rewrite (normalize_descriptor_fields fields Hdesc Hord Hproto).
  - now rewrite (normalize_descriptor (V.object fields) eq_refl).
  - now rewrite Hreal_.
Qed.

Lemma defineSchema_three_shapes_witness :
  NormalizingSchema.defineSchema
    [("games",
      searchIndex
        (index (defineTable (real (TObject [("win_count", TNumber);
                                            ("lastPlayedAt", TOptional TNumber)])))
               [JStr "by_count"]) [JStr "search"])] []
  = ([{| TableDef.name := "games";
         TableDef.columns :=
           [{| Column.name := "win_count"; Column.data_type := V.number |};
            {| Column.name := "lastPlayedAt";
               Column.data_type := V.optional V.number |}] |}],
     Returns tt).
Proof.
  apply (defineSchema_three_shapes "games"
           [("win_count", V.number); ("lastPlayedAt", V.optional V.number)]
           [("win_count", real TNumber); ("lastPlayedAt", real (TOptional TNumber))]
           (real (TObject [("win_count", TNumber); ("lastPlayedAt", TOptional TNumber)]))
           [] []); try reflexivity.
  - repeat constructor.
  - split; [reflexivity | repeat constructor].
Defined.

(** On what the mock [v] produces the two versions of [defineSchema]
    agree: when every table is defined by nothing, by an object
    descriptor or by a raw mapping to descriptors, the version that
    normalizes registers the very tables the version for mock validators
    registers. *)
Theorem defineSchema_versions_agree
    (tables : list (string * TableBuilder.t)) (schema : list TableDef.t) :
  Forall (fun t => mock_args (TableBuilder._validator (snd t))) tables ->
  NormalizingSchema.defineSchema tables schema
  = MockSchema.defineSchema tables schema.
Proof.
  intros H. revert schema.
  induction H as [|[name [validator]] tables Hv _ IH]; intros schema;
    [reflexivity|].
  cbn [NormalizingSchema.defineSchema MockSchema.defineSchema
       TableBuilder._validator snd] in *.
  destruct Hv as [-> | [-> | [[fields ->] | (fields & -> & Hdesc & Hord & Hproto)]]].
  - simpl. apply IH.
  - simpl. apply IH.
  - rewrite (normalize_descriptor (V.object fields) eq_refl). simpl. apply IH.
  - rewrite (normalize_descriptor_fields fields Hdesc Hord Hproto).
    cbn [nullish_or]. rewrite (mock_args_not_tagged_object fields Hdesc).
    simpl. apply IH.
Qed.

Lemma defineSchema_versions_agree_witness :
  NormalizingSchema.defineSchema
    [("games", defineTable (JObj [("win_count", V.number);
                                  ("status", V.union [V.literal (JStr "active");
                                                      V.literal (JStr "finished")])]));
     ("players", index (defineTable (V.object [("name", V.string)])) [JStr "by_name"])]
    []
  = MockSchema.defineSchema
      [("games", defineTable (JObj [("win_count", V.number);
                                    ("status", V.union [V.literal (JStr "active");
                                                        V.literal (JStr "finished")])]));
       ("players", index (defineTable (V.object [("name", V.string)])) [JStr "by_name"])]
      [].
Proof.
  apply defineSchema_versions_agree.
  constructor; [|constructor; [|constructor]].
  - right. right. right. eexists. split; [reflexivity|].
    split; [repeat constructor | split; reflexivity].
  - right. right. left. eexists. reflexivity.
Defined.

(** Only an object validator gives columns.  A table defined by a real
    validator of another kind (a union of objects, say), or by an object
    validator flagged optional, is registered under its name with no
    column at all. *)
Theorem table_not_object_no_columns (name : string) (validator d : JsVal)
    (schema : list TableDef.t) :
  isConvexValidator validator = true ->
  is_str (get validator "kind") "object" = false \/
  is_str (get validator "isOptional") "optional" = true ->
  normalize validator = Returns d ->
  NormalizingSchema.defineSchema [(name, defineTable validator)] schema
  = (schema ++ [{| TableDef.name := name; TableDef.columns := [] |}], Returns tt).
Proof.
  intros Hv Hshape Hd.
  cbn [NormalizingSchema.defineSchema defineTable TableBuilder._validator].
  rewrite Hd.
  assert (Htype : is_str (get d "type") "object" = false).
  { rewrite (normalize_validator _ Hv) in Hd. unfold normalizeValidator in Hd.
    destruct (normalizeValidator_inner normalize validator) as [inner|e]
      eqn:Hinner; simpl in Hd; [|discriminate].
    destruct (is_str (get validator "isOptional") "optional");
      injection Hd as <-; [reflexivity|].
    destruct Hshape as [Hk | Hopt]; [|discriminate].
    eapply normalizeValidator_inner_keeps_kind; eassumption. }
  rewrite Htype. reflexivity.
Qed.

Lemma table_not_object_no_columns_witness :
  NormalizingSchema.defineSchema
    [("events",
      defineTable (real (TUnion [TObject [("type", TLiteral (JStr "open"))];
                                 TObject [("type", TLiteral (JStr "close"))]])))] []
  = ([{| TableDef.name := "events"; TableDef.columns := [] |}], Returns tt).
Proof.
  apply (table_not_object_no_columns "events" _
           (V.union [V.object [("type", V.literal (JStr "open"))];
                     V.object [("type", V.literal (JStr "close"))]]) []).
  - reflexivity.
  - left. reflexivity.
  - reflexivity.
Defined.

(* ===================================================================== *)
(** ** The three shapes of one object validator *)
(* ===================================================================== *)





